(** * ClimaX front end: the polling components and their services

    A shallow embedding of the data-fetching logic of the React front end
    ([services/api.ts], [WeatherMonitor], [AlertsPanel], [SystemOverview],
    [CitizenReports], [ReportSubmissionForm]) and the properties of the
    synchronisation engine checked against it.

    Conventions of the embedding

    - A JavaScript promise is a value of [promise E T]: the instant at which
      it settles (milliseconds after the call that created it) and how it
      settles ([Fulfilled v] or [Rejected e]).  [await p] inside [try]
      continues with [v] or enters [catch] with [e].
    - A component is a record of its [useState] cells, each holding the value
      last handed to its setter (also after the component has been
      unmounted, when nothing renders it any more), together with the
      continuations of its [async] calls that are still suspended at an
      [await].  The browser's
      event loop is the list of events it delivers; an event that cannot
      occur in a state (a click on a button that is not rendered or is
      disabled, a tick of a cleared interval) has no successor.
    - [number] fields are carried as [Q]: the components store and display
      them but never compute with them. *)

From stdpp Require Import gmap strings list fin_maps pretty.
From Stdlib Require Import ZArith NArith QArith Qround Lqa.

Local Open Scope N_scope.
Set Warnings "-clear-no-such-hyp".

(** ** Promises *)

Module Promise.

Inductive settled (E T : Type) : Type :=
| Fulfilled (v : T)
| Rejected (e : E).
Arguments Fulfilled {E T} v.
Arguments Rejected {E T} e.

Definition is_fulfilled {E T} (s : settled E T) : bool :=
  match s with Fulfilled _ => true | Rejected _ => false end.

Record promise (E T : Type) : Type := Settles {
  settles_at : N;
  outcome : settled E T
}.
Arguments Settles {E T} _ _.
Arguments settles_at {E T} _.
Arguments outcome {E T} _.

Definition fulfils {E T} (p : promise E T) : Prop :=
  is_fulfilled (outcome p) = true.

Definition rejects {E T} (p : promise E T) : Prop :=
  is_fulfilled (outcome p) = false.

(** [p.then(f)]: the value is mapped, a rejection passes through. *)
Definition then_ {E T U} (p : promise E T) (f : T → U) : promise E U :=
  match outcome p with
  | Fulfilled v => Settles (settles_at p) (Fulfilled (f v))
  | Rejected e => Settles (settles_at p) (Rejected e)
  end.

Section All.
Context {E T : Type}.

(** The input that rejects first, if any: earliest instant, and among
    inputs rejecting at the same instant the one listed first. *)
Fixpoint first_rejection (ps : list (promise E T)) : option (N * E) :=
  match ps with
  | [] => None
  | p :: ps' =>
      match outcome p, first_rejection ps' with
      | Rejected e, Some (t', e') =>
          if settles_at p <=? t' then Some (settles_at p, e)
          else Some (t', e')
      | Rejected e, None => Some (settles_at p, e)
      | Fulfilled _, r => r
      end
  end.

Fixpoint values (ps : list (promise E T)) : list T :=
  match ps with
  | [] => []
  | p :: ps' =>
      match outcome p with
      | Fulfilled v => v :: values ps'
      | Rejected _ => values ps'
      end
  end.

Fixpoint last_settled (ps : list (promise E T)) : N :=
  match ps with
  | [] => 0
  | p :: ps' => N.max (settles_at p) (last_settled ps')
  end.

(** [Promise.all(ps)]: rejects as soon as one input rejects, with that
    input's reason; otherwise fulfils, once every input has, with the
    values in the order of the inputs. *)
Definition all (ps : list (promise E T)) : promise E (list T) :=
  match first_rejection ps with
  | Some (t, e) => Settles t (Rejected e)
  | None => Settles (last_settled ps) (Fulfilled (values ps))
  end.
End All.

End Promise.
Import Promise.

(** ** [types/index.ts] *)

Inductive DisasterType := flood | heatwave | cyclone | drought | earthquake.
Inductive Level := low | medium | high | critical.

Record WeatherData := {
  temperature : Q;
  humidity : Q;
  pressure : Q;
  wind_speed : Q;
  precipitation : Q;
  location : string;
  wd_timestamp : string
}.

Record Conditions := {
  c_temperature : Q;
  c_humidity : Q;
  c_precipitation : Q;
  c_wind_speed : Q
}.

Record ThreatAnalysis := {
  ta_region : string;
  current_conditions : Conditions;
  threat_level : Level;
  predicted_disasters : list string;
  recommendations : list string;
  alert_generated : option bool;
  alert_id : option string;
  ta_blockchain_hash : option string
}.

Record DisasterAlert := {
  da_id : string;
  da_region : string;
  da_disaster_type : DisasterType;
  alert_level : Level;
  da_description : string;
  affected_area : Q * Q;
  evacuation_routes : list (string * string);
  resources_needed : Q * Q * Q;
  da_timestamp : string;
  da_blockchain_hash : string
}.

Record ReportDraft := {
  rd_disaster_type : DisasterType;
  rd_severity : Q;
  rd_description : string;
  rd_location : Q * Q;
  rd_verified : bool
}.

Record CitizenReport := {
  cr_id : string;
  cr_report : ReportDraft;
  cr_image_url : option string;
  cr_timestamp : string
}.

Record DashboardData := {
  total_alerts : Q;
  active_regions : Q;
  citizen_reports : Q;
  blockchain_blocks : Q;
  recent_optimizations : Q;
  system_health : string * string * string * string
}.

(** ** [services/api.ts] *)

Module Api.

(** What axios rejects with: its error codes, and [NO_CODE] for the error
    it raises without a code (a refused status that is neither 4xx nor
    5xx). *)
Inductive AxiosError :=
| ERR_NETWORK
| ECONNABORTED
| ERR_BAD_REQUEST (status : N)
| ERR_BAD_RESPONSE (status : N)
| NO_CODE (status : N).

Record AxiosResponse (T : Type) := { data : T; status : N }.
Arguments data {T} _.
Arguments status {T} _.

(** What the remote end does with one request: it answers after some
    latency, with a response or with an error, or it never answers. *)
Inductive wire (T : Type) :=
| Answers (latency : N) (r : settled AxiosError (AxiosResponse T))
| Hangs.
Arguments Answers {T} _ _.
Arguments Hangs {T}.

Definition API_BASE_URL : string := "http://localhost:8000".

(** [axios.create({ baseURL: API_BASE_URL, timeout: 10000 })] *)
Definition timeout : N := 10000.

(** The instance sets no [validateStatus], so axios's default applies:
    [status >= 200 && status < 300]. *)
Definition validateStatus (status : N) : bool :=
  (200 <=? status) && (status <? 300).

(** The statuses with which axios resolves a response:
    [!response.status || validateStatus(response.status)]. *)
Definition accepted (status : N) : bool :=
  (status =? 0) || validateStatus status.

(** The error for a refused status:
    [[ERR_BAD_REQUEST, ERR_BAD_RESPONSE][Math.floor(status / 100) - 4]]. *)
Definition status_error (status : N) : AxiosError :=
  if status / 100 =? 4 then ERR_BAD_REQUEST status
  else if status / 100 =? 5 then ERR_BAD_RESPONSE status
  else NO_CODE status.

(** How axios settles a response that has arrived. *)
Definition settle {T} (response : AxiosResponse T)
    : settled AxiosError (AxiosResponse T) :=
  if accepted (status response) then Fulfilled response
  else Rejected (status_error (status response)).

(** One request through the instance: an answer that arrives before the
    timeout settles the promise, a response according to its status and
    a transport error as it is; otherwise the request is aborted when
    the timeout expires and the promise rejects with [ECONNABORTED]. *)
Definition request {T} (w : wire T) : promise AxiosError (AxiosResponse T) :=
  match w with
  | Answers latency r =>
      if latency <? timeout then
        Settles latency match r with
                        | Fulfilled response => settle response
                        | Rejected e => Rejected e
                        end
      else Settles timeout (Rejected ECONNABORTED)
  | Hangs => Settles timeout (Rejected ECONNABORTED)
  end.

(** The remote API, one behaviour per request. *)
Record backend := {
  weather : string → wire WeatherData;
  analyze_threat : string → wire ThreatAnalysis;
  alerts : string → wire (list DisasterAlert);
  generate_alerts : string → wire unit;
  citizen_report : string → ReportDraft → wire unit;
  citizen_reports_list : string → wire (list CitizenReport);
  dashboard : string → wire DashboardData
}.

Section Services.
Variable remote : backend.

(** [const response = await api.get(...); return response.data;] *)
Definition getWeather (city : string) : promise AxiosError WeatherData :=
  let response := request (weather remote ("/weather/" +:+ city)) in
  then_ response data.

Definition analyzeThreat (region : string) : promise AxiosError ThreatAnalysis :=
  let response := request (analyze_threat remote ("/analyze-threat/" +:+ region)) in
  then_ response data.

(** [limit] is interpolated into the url; for the whole numbers the
    callers pass (20 at every call site) JavaScript prints the decimal
    digits, as [pretty] does. *)
Definition getAlerts (limit : N) : promise AxiosError (list DisasterAlert) :=
  let response := request (alerts remote ("/alerts?limit=" +:+ pretty limit)) in
  then_ response data.

Definition generateTestAlerts : promise AxiosError unit :=
  let response := request (generate_alerts remote "/test/generate-alerts") in
  then_ response data.

Definition submitReport (report : ReportDraft) : promise AxiosError unit :=
  let response := request (citizen_report remote "/citizen-report" report) in
  then_ response data.

Definition getReports (limit : N) : promise AxiosError (list CitizenReport) :=
  let response := request (citizen_reports_list remote ("/citizen-reports?limit=" +:+ pretty limit)) in
  then_ response data.

Definition getDashboardData : promise AxiosError DashboardData :=
  let response := request (dashboard remote "/simulation/dashboard") in
  then_ response data.
End Services.

(** A service call hands on what axios did with the wire [w]: the data of
    a response that arrived in time with an accepted status; the status
    error of one that arrived in time with a refused status; the
    transport's own error when it reported one in time; and axios's abort
    error when the timeout expired first. *)
Definition passes_through {T} (w : wire T) (p : promise AxiosError T) : Prop :=
  settles_at p ≤ timeout ∧
  (∀ d, outcome p = Fulfilled d ↔
        ∃ l s, l < timeout ∧ accepted s = true ∧
               w = Answers l (Fulfilled {| data := d; status := s |})) ∧
  (∀ e, outcome p = Rejected e ↔
        (∃ l, l < timeout ∧ w = Answers l (Rejected e)) ∨
        (∃ l d s, l < timeout ∧ accepted s = false ∧ e = status_error s ∧
                  w = Answers l (Fulfilled {| data := d; status := s |})) ∨
        (e = ECONNABORTED ∧ (w = Hangs ∨ ∃ l r, timeout ≤ l ∧ w = Answers l r))).

End Api.

Import Api.

(** The lifecycle of a mounted component: [Idle] before its effect has run,
    [Running] while its interval is armed, [Stopped] once the effect's
    cleanup has cleared the interval. *)
Inductive phase := Idle | Running | Stopped.

(** [await p; await q] for two promises that both exist before the first
    [await]: a rejection of [p] is raised when [p] settles; a rejection of
    [q] is raised once [p] has fulfilled and [q] has settled. *)
Definition await_both {E A B} (p : promise E A) (q : promise E B) : promise E (A * B) :=
  match outcome p with
  | Rejected e => Settles (settles_at p) (Rejected e)
  | Fulfilled a =>
      match outcome q with
      | Rejected e => Settles (N.max (settles_at p) (settles_at q)) (Rejected e)
      | Fulfilled b => Settles (N.max (settles_at p) (settles_at q)) (Fulfilled (a, b))
      end
  end.

(** ** [components/Weather/WeatherMonitor.tsx] *)

Module WeatherMonitor.

Definition regions : list string :=
  ["delhi"; "mumbai"; "bangalore"; "chennai"; "kolkata"].

(** Update every minute. *)
Definition period : N := 60000.

(** The two keyed maps the component displays. *)
Record Snapshot := {
  weatherData : gmap string WeatherData;
  threatAnalyses : gmap string ThreatAnalysis
}.

(** The fetches of one cycle, each under the key it was issued for. *)
Record CycleResult := {
  weather_fetches : list (string * promise AxiosError WeatherData);
  threat_fetches : list (string * promise AxiosError ThreatAnalysis)
}.

(** [regions.map(region => weatherService.getWeather(region) ...)] and
    [regions.map(region => threatService.analyzeThreat(region) ...)]:
    every request is issued before anything is awaited. *)
Definition fan_out (remote : backend) (keys : list string) : CycleResult :=
  {| weather_fetches := map (λ region, (region, getWeather remote region)) keys;
     threat_fetches := map (λ region, (region, analyzeThreat remote region)) keys |}.

(** [.then(data => ({ region, data }))] *)
Definition tagged {T} (f : string * promise AxiosError T) : promise AxiosError (string * T) :=
  then_ f.2 (λ data, (f.1, data)).

(** [const weatherResults = await Promise.all(weatherPromises);
     const threatResults = await Promise.all(threatPromises);] *)
Definition awaited (cycle : CycleResult)
  : promise AxiosError (list (string * WeatherData) * list (string * ThreatAnalysis)) :=
  let weatherPromises := map tagged (weather_fetches cycle) in
  let threatPromises := map tagged (threat_fetches cycle) in
  await_both (all weatherPromises) (all threatPromises).

(** [const acc = {}; results.forEach(({ region, data }) => { acc[region] = data; });] *)
Definition collect {T} (results : list (string * T)) : gmap string T :=
  foldl (λ acc r, <[r.1 := r.2]> acc) ∅ results.

(** What one cycle does to the displayed maps: when both awaits succeed the
    two freshly built maps replace the displayed ones; in the [catch] branch
    nothing is set. *)
Definition merge (previous : Snapshot) (cycle : CycleResult) : Snapshot :=
  match outcome (awaited cycle) with
  | Fulfilled (weatherResults, threatResults) =>
      {| weatherData := collect weatherResults;
         threatAnalyses := collect threatResults |}
  | Rejected error => previous
  end.

(** Every fetch of the cycle fulfilled. *)
Definition all_success (cycle : CycleResult) : Prop :=
  Forall (λ f, fulfils f.2) (weather_fetches cycle) ∧
  Forall (λ f, fulfils f.2) (threat_fetches cycle).

(** A fetch issued for [key] rejected. *)
Definition fails_in (key : string) (cycle : CycleResult) : Prop :=
  (∃ p, (key, p) ∈ weather_fetches cycle ∧ rejects p) ∨
  (∃ p, (key, p) ∈ threat_fetches cycle ∧ rejects p).


(** The [useState] cells. *)
Record cells := {
  snapshot : Snapshot;
  loading : bool;
  refreshing : bool
}.

Record state := {
  ui : cells;
  lifecycle : phase;
  in_flight : nat     (* calls of [fetchWeatherData] suspended at an [await] *)
}.

Definition initial : state :=
  {| ui := {| snapshot := {| weatherData := ∅; threatAnalyses := ∅ |};
              loading := true;
              refreshing := false |};
     lifecycle := Idle;
     in_flight := 0 |}.

(** [fetchWeatherData], up to its first [await]. *)
Definition fetchWeatherData_call (st : state) : state :=
  {| ui := {| snapshot := snapshot (ui st);
              loading := loading (ui st);
              refreshing := true |};
     lifecycle := lifecycle st;
     in_flight := S (in_flight st) |}.

(** [fetchWeatherData], from the [await]s to the end of [finally]. *)
Definition fetchWeatherData_resume (remote : backend) (st : state) : state :=
  {| ui := {| snapshot := merge (snapshot (ui st)) (fan_out remote regions);
              loading := false;
              refreshing := false |};
     lifecycle := lifecycle st;
     in_flight := pred (in_flight st) |}.

Inductive event :=
| Mount                       (* the effect: fetch, then [setInterval] *)
| Tick                        (* the interval's callback *)
| ClickRefresh                (* the Refresh button *)
| Settled (remote : backend)  (* a suspended call resumes; [remote] is how
                                 the API treated the requests of that call *)
| Unmount.                    (* the effect's cleanup: [clearInterval] *)

Definition with_lifecycle (p : phase) (st : state) : state :=
  {| ui := ui st; lifecycle := p; in_flight := in_flight st |}.

(** The Refresh button is part of the tree returned when [loading] is false
    and carries [disabled={refreshing}]. *)
Definition refresh_enabled (st : state) : bool :=
  negb (loading (ui st)) && negb (refreshing (ui st)).

Definition step (st : state) (e : event) : option state :=
  match e, lifecycle st with
  | Mount, Idle => Some (with_lifecycle Running (fetchWeatherData_call st))
  | Tick, Running => Some (fetchWeatherData_call st)
  | ClickRefresh, Running =>
      if refresh_enabled st then Some (fetchWeatherData_call st) else None
  | Settled remote, _ =>
      match in_flight st with
      | O => None
      | S _ => Some (fetchWeatherData_resume remote st)
      end
  | Unmount, Running => Some (with_lifecycle Stopped st)
  | _, _ => None
  end.

Fixpoint run (es : list event) (st : state) : option state :=
  match es with
  | [] => Some st
  | e :: es' =>
      match step st e with
      | Some st' => run es' st'
      | None => None
      end
  end.

End WeatherMonitor.

(** ** [components/Alerts/AlertsPanel.tsx] *)

Module AlertsPanel.

(** Update every 30 seconds. *)
Definition period : N := 30000.

Record cells := {
  alerts : list DisasterAlert;
  loading : bool;
  generating : bool
}.

(** Where a suspended [async] call of the component is waiting. *)
Inductive continuation :=
| FetchAlerts             (* [fetchAlerts] at [await alertService.getAlerts(20)] *)
| GenerateTestAlerts      (* [generateTestAlerts] at [await alertService.generateTestAlerts()] *)
| GenerateThenFetch.      (* [generateTestAlerts] at [await fetchAlerts()] *)

Record state := {
  ui : cells;
  lifecycle : phase;
  suspended : list continuation
}.

Definition initial : state :=
  {| ui := {| alerts := []; loading := true; generating := false |};
     lifecycle := Idle;
     suspended := [] |}.

(** Fetch cycles in flight: calls of [fetchAlerts] that have not returned. *)
Definition is_fetch (k : continuation) : bool :=
  match k with
  | FetchAlerts | GenerateThenFetch => true
  | GenerateTestAlerts => false
  end.

Definition in_flight (st : state) : nat :=
  length (filter (λ k, is_fetch k = true) (suspended st)).

(** [fetchAlerts], up to its [await]. *)
Definition fetchAlerts_call (st : state) : state :=
  {| ui := ui st; lifecycle := lifecycle st;
     suspended := suspended st ++ [FetchAlerts] |}.

(** [fetchAlerts], from its [await] to the end of [finally]. *)
Definition fetchAlerts_resume (remote : backend) (c : cells) : cells :=
  {| alerts := match outcome (getAlerts remote 20) with
               | Fulfilled data => data
               | Rejected error => alerts c
               end;
     loading := false;
     generating := generating c |}.

Definition setGenerating (b : bool) (c : cells) : cells :=
  {| alerts := alerts c; loading := loading c; generating := b |}.

(** [generateTestAlerts], up to its first [await]. *)
Definition generateTestAlerts_call (st : state) : state :=
  {| ui := setGenerating true (ui st); lifecycle := lifecycle st;
     suspended := suspended st ++ [GenerateTestAlerts] |}.

Inductive event :=
| Mount
| Tick
| ClickRefresh
| ClickGenerate
| Settled (i : nat) (remote : backend)   (* the [i]-th suspended call resumes *)
| Unmount.

(** The [i]-th suspended call resumes and runs to its next [await] or to
    its end. *)
Definition resume (i : nat) (remote : backend) (st : state) : option state :=
  match suspended st !! i with
  | None => None
  | Some FetchAlerts =>
      Some {| ui := fetchAlerts_resume remote (ui st);
              lifecycle := lifecycle st;
              suspended := delete i (suspended st) |}
  | Some GenerateTestAlerts =>
      match outcome (generateTestAlerts remote) with
      | Fulfilled _ =>
          Some {| ui := ui st; lifecycle := lifecycle st;
                  suspended := <[i := GenerateThenFetch]> (suspended st) |}
      | Rejected error =>
          Some {| ui := setGenerating false (ui st);
                  lifecycle := lifecycle st;
                  suspended := delete i (suspended st) |}
      end
  | Some GenerateThenFetch =>
      Some {| ui := setGenerating false (fetchAlerts_resume remote (ui st));
              lifecycle := lifecycle st;
              suspended := delete i (suspended st) |}
  end.

Definition with_lifecycle (p : phase) (st : state) : state :=
  {| ui := ui st; lifecycle := p; suspended := suspended st |}.

(** Both buttons are part of the tree returned when [loading] is false; only
    Generate Test Alerts carries [disabled={generating}]. *)
Definition step (st : state) (e : event) : option state :=
  match e, lifecycle st with
  | Mount, Idle => Some (with_lifecycle Running (fetchAlerts_call st))
  | Tick, Running => Some (fetchAlerts_call st)
  | ClickRefresh, Running =>
      if loading (ui st) then None else Some (fetchAlerts_call st)
  | ClickGenerate, Running =>
      if loading (ui st) || generating (ui st) then None
      else Some (generateTestAlerts_call st)
  | Settled i remote, _ => resume i remote st
  | Unmount, Running => Some (with_lifecycle Stopped st)
  | _, _ => None
  end.

Fixpoint run (es : list event) (st : state) : option state :=
  match es with
  | [] => Some st
  | e :: es' =>
      match step st e with
      | Some st' => run es' st'
      | None => None
      end
  end.

End AlertsPanel.

(** ** [components/Dashboard/SystemOverview.tsx] *)

Module SystemOverview.

Definition period : N := 30000.

Record cells := {
  dashboardData : option DashboardData;
  loading : bool
}.

Record state := {
  ui : cells;
  lifecycle : phase;
  in_flight : nat
}.

Definition initial : state :=
  {| ui := {| dashboardData := None; loading := true |};
     lifecycle := Idle;
     in_flight := 0 |}.

Definition fetchDashboardData_call (st : state) : state :=
  {| ui := ui st; lifecycle := lifecycle st; in_flight := S (in_flight st) |}.

Definition fetchDashboardData_resume (remote : backend) (st : state) : state :=
  {| ui := {| dashboardData := match outcome (getDashboardData remote) with
                               | Fulfilled data => Some data
                               | Rejected error => dashboardData (ui st)
                               end;
              loading := false |};
     lifecycle := lifecycle st;
     in_flight := pred (in_flight st) |}.

Inductive event :=
| Mount
| Tick
| Settled (remote : backend)
| Unmount.

Definition with_lifecycle (p : phase) (st : state) : state :=
  {| ui := ui st; lifecycle := p; in_flight := in_flight st |}.

Definition step (st : state) (e : event) : option state :=
  match e, lifecycle st with
  | Mount, Idle => Some (with_lifecycle Running (fetchDashboardData_call st))
  | Tick, Running => Some (fetchDashboardData_call st)
  | Settled remote, _ =>
      match in_flight st with
      | O => None
      | S _ => Some (fetchDashboardData_resume remote st)
      end
  | Unmount, Running => Some (with_lifecycle Stopped st)
  | _, _ => None
  end.

Fixpoint run (es : list event) (st : state) : option state :=
  match es with
  | [] => Some st
  | e :: es' =>
      match step st e with
      | Some st' => run es' st'
      | None => None
      end
  end.

End SystemOverview.

(** ** [components/Reports/ReportSubmissionForm.tsx] *)

Module ReportSubmissionForm.

Record cells := {
  formData : ReportDraft;
  submitting : bool
}.

Definition initial : cells :=
  {| formData := {| rd_disaster_type := flood;
                    rd_severity := 5%Q;
                    rd_description := "";
                    rd_location := (28.6139%Q, 77.2090%Q);
                    rd_verified := false |};
     submitting := false |}.

Definition setSubmitting (b : bool) (c : cells) : cells :=
  {| formData := formData c; submitting := b |}.

Section Props.
(** The component that renders the form, and the callbacks it passes. *)
Context {P : Type}.
Variables (onClose onSubmitted : P → P).

(** [handleSubmit], up to its [await]: the report that is sent is the
    [formData] of the render in which the form was submitted. *)
Definition handleSubmit_call (c : cells) : cells * ReportDraft :=
  (setSubmitting true c, formData c).

(** [handleSubmit], from its [await] to the end of [finally]. *)
Definition handleSubmit_resume (remote : backend) (report : ReportDraft)
    (s : cells * P) : cells * P :=
  let s' := match outcome (submitReport remote report) with
            | Fulfilled _ => (s.1, onSubmitted s.2)
            | Rejected error => s
            end in
  (setSubmitting false s'.1, s'.2).

(** The whole of [handleSubmit], for a submission that nothing interleaves
    with. *)
Definition handleSubmit (remote : backend) (s : cells * P) : cells * P :=
  let (c, report) := handleSubmit_call s.1 in
  handleSubmit_resume remote report (c, s.2).

End Props.

End ReportSubmissionForm.

(** ** [components/Reports/CitizenReports.tsx] *)

Module CitizenReports.

Definition period : N := 30000.

Record cells := {
  reports : list CitizenReport;
  loading : bool;
  showForm : bool
}.

Record state := {
  ui : cells;
  lifecycle : phase;
  in_flight : nat
}.

Definition initial : state :=
  {| ui := {| reports := []; loading := true; showForm := false |};
     lifecycle := Idle;
     in_flight := 0 |}.

Definition setShowForm (b : bool) (st : state) : state :=
  {| ui := {| reports := reports (ui st); loading := loading (ui st); showForm := b |};
     lifecycle := lifecycle st;
     in_flight := in_flight st |}.

Definition fetchReports_call (st : state) : state :=
  {| ui := ui st; lifecycle := lifecycle st; in_flight := S (in_flight st) |}.


(** [setShowForm(false); fetchReports();] *)
Definition handleReportSubmitted (st : state) : state :=
  fetchReports_call (setShowForm false st).

(** [<ReportSubmissionForm onClose={() => setShowForm(false)}
                           onSubmitted={handleReportSubmitted} />] *)
Definition form_handleSubmit (remote : backend)
    (s : ReportSubmissionForm.cells * state) : ReportSubmissionForm.cells * state :=
  ReportSubmissionForm.handleSubmit handleReportSubmitted remote s.

End CitizenReports.

(** ** Remote behaviours used in the examples *)

Module Fixtures.

Definition sample_weather (city : string) (t : Q) : WeatherData :=
  {| temperature := t; humidity := 60%Q; pressure := 1012%Q;
     wind_speed := 7.5%Q; precipitation := 0%Q;
     location := city; wd_timestamp := "2025-01-01T00:00:00Z" |}.

Definition sample_threat (region : string) : ThreatAnalysis :=
  {| ta_region := region;
     current_conditions := {| c_temperature := 30%Q; c_humidity := 60%Q;
                              c_precipitation := 0%Q; c_wind_speed := 7.5%Q |};
     threat_level := low;
     predicted_disasters := [];
     recommendations := [];
     alert_generated := None; alert_id := None; ta_blockchain_hash := None |}.

Definition sample_alert : DisasterAlert :=
  {| da_id := "a1"; da_region := "delhi"; da_disaster_type := heatwave;
     alert_level := high; da_description := "heat";
     affected_area := (10%Q, 1000%Q); evacuation_routes := [];
     resources_needed := (1%Q, 1%Q, 1%Q);
     da_timestamp := "2025-01-01T00:00:00Z"; da_blockchain_hash := "00" |}.

Definition sample_dashboard : DashboardData :=
  {| total_alerts := 1%Q; active_regions := 5%Q; citizen_reports := 0%Q;
     blockchain_blocks := 1%Q; recent_optimizations := 0%Q;
     system_health := ("online", "verified", "ready", "active") |}.

Definition ok {T} (latency : N) (d : T) : wire T :=
  Answers latency (Fulfilled {| data := d; status := 200 |}).

Definition fails {T} (latency : N) (e : AxiosError) : wire T :=
  Answers latency (Rejected e).

Definition city_of (url : string) : string :=
  String.substring 9 (String.length url - 9) url.

(** Every endpoint answers within 100 ms. *)
Definition healthy : backend :=
  {| weather := λ url, ok 100 (sample_weather (city_of url) 30%Q);
     analyze_threat := λ url, ok 100 (sample_threat url);
     alerts := λ _, ok 100 [sample_alert];
     generate_alerts := λ _, ok 100 tt;
     citizen_report := λ _ _, ok 100 tt;
     citizen_reports_list := λ _, ok 100 [];
     dashboard := λ _, ok 100 sample_dashboard |}.

(** Nothing can be reached: every request fails after 5 ms. *)
Definition unreachable : backend :=
  {| weather := λ _, fails 5 ERR_NETWORK;
     analyze_threat := λ _, fails 5 ERR_NETWORK;
     alerts := λ _, fails 5 ERR_NETWORK;
     generate_alerts := λ _, fails 5 ERR_NETWORK;
     citizen_report := λ _ _, fails 5 ERR_NETWORK;
     citizen_reports_list := λ _, fails 5 ERR_NETWORK;
     dashboard := λ _, fails 5 ERR_NETWORK |}.

(** As [healthy], except that the weather request for one city is treated
    as given. *)
Definition weather_except (url : string) (w : wire WeatherData) : backend :=
  {| weather := λ u, if String.eqb u url then w else weather healthy u;
     analyze_threat := analyze_threat healthy;
     alerts := alerts healthy;
     generate_alerts := generate_alerts healthy;
     citizen_report := citizen_report healthy;
     citizen_reports_list := citizen_reports_list healthy;
     dashboard := dashboard healthy |}.

(** Mumbai's weather request is answered after 5 ms with status 503. *)
Definition mumbai_refused : backend :=
  weather_except "/weather/mumbai"
    (Answers 5 (Fulfilled {| data := sample_weather "mumbai" 30%Q;
                             status := 503 |})).

Definition mumbai_silent : backend :=
  weather_except "/weather/mumbai" Hangs.

(** A snapshot with an entry for a city outside [WeatherMonitor.regions]. *)
Definition pune_only : WeatherMonitor.Snapshot :=
  {| WeatherMonitor.weatherData := {[ "pune" := sample_weather "pune" 27%Q ]};
     WeatherMonitor.threatAnalyses := {[ "pune" := sample_threat "pune" ]} |}.

Definition nothing_yet : WeatherMonitor.Snapshot :=
  {| WeatherMonitor.weatherData := ∅; WeatherMonitor.threatAnalyses := ∅ |}.

End Fixtures.

(** ** What the components render *)

Module Render.

(** [getThreatLevelColor] of [WeatherMonitor]. *)
Definition getThreatLevelColor (level : string) : string :=
  if String.eqb level "critical" then "bg-red-500/20 border-red-500 text-red-400"
  else if String.eqb level "high" then "bg-orange-500/20 border-orange-500 text-orange-400"
  else if String.eqb level "medium" then "bg-yellow-500/20 border-yellow-500 text-yellow-400"
  else "bg-green-500/20 border-green-500 text-green-400".

(** [getAlertLevelColor] of [AlertsPanel]. *)
Definition getAlertLevelColor (level : string) : string :=
  if String.eqb level "critical" then "bg-red-500/20 border-red-500 text-red-400"
  else if String.eqb level "high" then "bg-orange-500/20 border-orange-500 text-orange-400"
  else if String.eqb level "medium" then "bg-yellow-500/20 border-yellow-500 text-yellow-400"
  else "bg-green-500/20 border-green-500 text-green-400".

(** The string a [Level] has in the JSON of the API. *)
Definition level_name (l : Level) : string :=
  match l with
  | low => "low" | medium => "medium" | high => "high" | critical => "critical"
  end.

(** [getSeverityColor] of [CitizenReports]. *)
Definition getSeverityColor (severity : Q) : string :=
  if Qle_bool 8 severity then "text-red-400 bg-red-500/20"
  else if Qle_bool 6 severity then "text-orange-400 bg-orange-500/20"
  else if Qle_bool 4 severity then "text-yellow-400 bg-yellow-500/20"
  else "text-green-400 bg-green-500/20".

(** [[...Array(5)].map((_, i) => ... i < Math.floor(report.severity / 2)
    ? 'text-yellow-400 fill-current' : 'text-gray-500' ...)] *)
Definition stars (severity : Q) : list string :=
  map (λ i : Z, if (i <? Qfloor (severity / 2))%Z
                then "text-yellow-400 fill-current" else "text-gray-500")
      [0; 1; 2; 3; 4]%Z.

Definition filled (stars : list string) : nat :=
  length (filter (λ s, s = "text-yellow-400 fill-current") stars).

End Render.

(** ** [WeatherMonitor]: the keys of the two maps *)

(** Both maps have no key, or both have exactly the keys of [regions]. *)
Definition covers_none_or_all (S : WeatherMonitor.Snapshot) : Prop :=
  (dom (WeatherMonitor.weatherData S) = ∅ ∧
   dom (WeatherMonitor.threatAnalyses S) = ∅) ∨
  (dom (WeatherMonitor.weatherData S) = list_to_set WeatherMonitor.regions ∧
   dom (WeatherMonitor.threatAnalyses S) = list_to_set WeatherMonitor.regions).

(** ** [App.tsx] and [components/Layout/Header.tsx] *)

Module App.

Inductive view :=
| SystemOverviewView
| WeatherMonitorView
| AlertsPanelView
| CitizenReportsView.

(** [useState('dashboard')] *)
Definition initial : string := "dashboard".

(** [renderSection]: the [switch] over [activeSection]. *)
Definition renderSection (activeSection : string) : view :=
  if String.eqb activeSection "dashboard" then SystemOverviewView
  else if String.eqb activeSection "weather" then WeatherMonitorView
  else if String.eqb activeSection "alerts" then AlertsPanelView
  else if String.eqb activeSection "reports" then CitizenReportsView
  else SystemOverviewView.

Inductive Icon := Activity | Cloud | Bell | Shield.

Record navItem := {
  item_id : string;
  item_label : string;
  item_icon : Icon
}.

Definition navItems : list navItem :=
  [ {| item_id := "dashboard"; item_label := "Dashboard"; item_icon := Activity |};
    {| item_id := "weather"; item_label := "Weather"; item_icon := Cloud |};
    {| item_id := "alerts"; item_label := "Alerts"; item_icon := Bell |};
    {| item_id := "reports"; item_label := "Reports"; item_icon := Shield |} ].

(** The items drawn with the highlight: [activeSection === item.id]. *)
Definition highlighted (activeSection : string) : list navItem :=
  filter (λ item, activeSection = item_id item) navItems.

(** [onClick={() => onSectionChange(item.id)}], with
    [onSectionChange={setActiveSection}]. *)
Definition click (item : navItem) (activeSection : string) : string :=
  item_id item.

End App.

(** ** [knowledgeService.queryKnowledge]: the request parameters *)

Module Knowledge.

(** A string is truthy unless it is empty. *)
Definition truthy (s : string) : bool := negb (String.eqb s "").

(** [const params: any = { query };
     if (disaster_type) params.disaster_type = disaster_type;] *)
Definition params (query : string) (disaster_type : option string)
    : gmap string string :=
  let params := {[ "query" := query ]} in
  match disaster_type with
  | Some d => if truthy d then <[ "disaster_type" := d ]> params else params
  | None => params
  end.

End Knowledge.

(** ** [ReportSubmissionForm]: the inputs of the form *)

Module FormInput.

Inductive input :=
| SelectDisasterType (t : DisasterType)  (* one of the [disasterTypes] buttons *)
| ChangeSeverity (v : Z)                 (* the range input, [parseInt] *)
| ChangeDescription (s : string)
| ChangeLat (v : Q)                      (* [parseFloat] *)
| ChangeLon (v : Q)
| LocationFound (lat lon : Q)            (* [getCurrentPosition], success *)
| LocationFailed                         (* [getCurrentPosition], error *)
| LocationUnsupported.                   (* no [navigator.geolocation] *)

(** [setFormData(prev => ({ ...prev, ... }))] *)
Definition update (i : input) (prev : ReportDraft) : ReportDraft :=
  match i with
  | SelectDisasterType t =>
      {| rd_disaster_type := t; rd_severity := rd_severity prev;
         rd_description := rd_description prev; rd_location := rd_location prev;
         rd_verified := rd_verified prev |}
  | ChangeSeverity v =>
      {| rd_disaster_type := rd_disaster_type prev; rd_severity := inject_Z v;
         rd_description := rd_description prev; rd_location := rd_location prev;
         rd_verified := rd_verified prev |}
  | ChangeDescription s =>
      {| rd_disaster_type := rd_disaster_type prev; rd_severity := rd_severity prev;
         rd_description := s; rd_location := rd_location prev;
         rd_verified := rd_verified prev |}
  | ChangeLat v =>
      {| rd_disaster_type := rd_disaster_type prev; rd_severity := rd_severity prev;
         rd_description := rd_description prev;
         rd_location := (v, (rd_location prev).2);
         rd_verified := rd_verified prev |}
  | ChangeLon v =>
      {| rd_disaster_type := rd_disaster_type prev; rd_severity := rd_severity prev;
         rd_description := rd_description prev;
         rd_location := ((rd_location prev).1, v);
         rd_verified := rd_verified prev |}
  | LocationFound lat lon =>
      {| rd_disaster_type := rd_disaster_type prev; rd_severity := rd_severity prev;
         rd_description := rd_description prev; rd_location := (lat, lon);
         rd_verified := rd_verified prev |}
  | LocationFailed | LocationUnsupported => prev
  end.

Definition handle (i : input) (c : ReportSubmissionForm.cells)
    : ReportSubmissionForm.cells :=
  {| ReportSubmissionForm.formData := update i (ReportSubmissionForm.formData c);
     ReportSubmissionForm.submitting := ReportSubmissionForm.submitting c |}.

Definition after (inputs : list input) : ReportSubmissionForm.cells :=
  foldl (λ c i, handle i c) ReportSubmissionForm.initial inputs.

End FormInput.

(** ** [AlertsPanel]: the calls of [generateTestAlerts] under way *)

Definition is_generate (k : AlertsPanel.continuation) : bool :=
  match k with
  | AlertsPanel.FetchAlerts => false
  | AlertsPanel.GenerateTestAlerts | AlertsPanel.GenerateThenFetch => true
  end.

Definition generating_calls (st : AlertsPanel.state) : nat :=
  length (filter (λ k, is_generate k = true) (AlertsPanel.suspended st)).

(** * Properties *)

(** ** Promises *)

Section PromiseFacts.
Context {E T : Type}.
Implicit Types (p : promise E T) (ps : list (promise E T)).

Lemma fulfils_or_rejects p : fulfils p ∨ rejects p.
Proof. unfold fulfils, rejects. destruct (is_fulfilled _); auto. Qed.

Lemma first_rejection_None ps :
  first_rejection ps = None ↔ Forall fulfils ps.
Proof.
  induction ps as [|p ps IH]; simpl.
  - split; [constructor | done].
  - rewrite Forall_cons, <- IH. unfold fulfils.
    destruct (outcome p) as [v|e]; simpl; [naive_solver|].
    destruct (first_rejection ps) as [[t' e']|]; [destruct (_ <=? _)|];
      naive_solver.
Qed.

(** The rejection [Promise.all] reports is one of its inputs' rejections,
    and no input rejected earlier. *)
Lemma first_rejection_Some ps t e :
  first_rejection ps = Some (t, e) →
  (∃ p, p ∈ ps ∧ outcome p = Rejected e ∧ settles_at p = t) ∧
  (∀ q, q ∈ ps → rejects q → t ≤ settles_at q).
Proof.
  revert t e. induction ps as [|p ps IH]; simpl; [done|].
  intros t e.
  destruct (outcome p) as [v|e0] eqn:Hp.
  - intros Hr. destruct (IH _ _ Hr) as [(q & Hq & Ho & Ht) Hmin]. split.
    + exists q. set_solver.
    + intros q' [->|Hin]%elem_of_cons Hrej; [|by apply Hmin].
      unfold rejects in Hrej. by rewrite Hp in Hrej.
  - destruct (first_rejection ps) as [[t' e']|] eqn:Hr.
    + destruct (IH _ _ eq_refl) as [(q & Hq & Ho & Ht) Hmin].
      destruct (N.leb_spec (settles_at p) t'); intros [= <- <-].
      * split; [exists p; set_solver|].
        intros q' [->|Hin]%elem_of_cons Hrej; [lia|].
        specialize (Hmin _ Hin Hrej). lia.
      * split; [exists q; set_solver|].
        intros q' [->|Hin]%elem_of_cons Hrej; [lia|]. by apply Hmin.
    + intros [= <- <-]. split; [exists p; set_solver|].
      intros q' [->|Hin]%elem_of_cons Hrej; [lia|].
      apply first_rejection_None in Hr.
      rewrite Forall_forall in Hr. specialize (Hr _ Hin).
      unfold fulfils, rejects in *. congruence.
Qed.

Lemma all_fulfils ps :
  Forall fulfils ps →
  all ps = Settles (last_settled ps) (Fulfilled (values ps)).
Proof. intros H. unfold all. by apply first_rejection_None in H as ->. Qed.

Lemma all_rejects ps :
  Exists rejects ps → ∃ t e, all ps = Settles t (Rejected e).
Proof.
  intros H. unfold all.
  destruct (first_rejection ps) as [[t e]|] eqn:Hr; [eauto|].
  apply first_rejection_None in Hr. apply Exists_exists in H as (p & Hin & Hp).
  rewrite Forall_forall in Hr. specialize (Hr _ Hin).
  unfold fulfils, rejects in *. congruence.
Qed.

Lemma last_settled_bound ps b :
  Forall (λ p, settles_at p ≤ b) ps → last_settled ps ≤ b.
Proof. induction 1; simpl; lia. Qed.

Lemma last_settled_upper ps p : p ∈ ps → settles_at p ≤ last_settled ps.
Proof.
  induction ps as [|q ps IH]; simpl; [set_solver|].
  intros [->|Hin]%elem_of_cons; [lia|]. specialize (IH Hin). lia.
Qed.

End PromiseFacts.

(** ** The services *)

Lemma then_settles_at {E T U} (p : promise E T) (f : T → U) :
  settles_at (then_ p f) = settles_at p.
Proof. unfold then_. by destruct (outcome p). Qed.

Lemma then_fulfils {E T U} (p : promise E T) (f : T → U) :
  fulfils (then_ p f) ↔ fulfils p.
Proof. unfold fulfils, then_. by destruct (outcome p). Qed.

Lemma then_rejects {E T U} (p : promise E T) (f : T → U) :
  rejects (then_ p f) ↔ rejects p.
Proof. unfold rejects, then_. by destruct (outcome p). Qed.

Lemma await_both_bound {E A B} (p : promise E A) (q : promise E B) b :
  settles_at p ≤ b → settles_at q ≤ b → settles_at (await_both p q) ≤ b.
Proof.
  intros Hp Hq. unfold await_both.
  destruct (outcome p); [destruct (outcome q)|]; simpl; lia.
Qed.

Lemma request_within_timeout {T} (w : wire T) :
  settles_at (request w) ≤ timeout.
Proof.
  destruct w as [l r|]; simpl; [|lia].
  destruct (N.ltb_spec l timeout); simpl; lia.
Qed.

Lemma service_passes_through {T} (w : wire T) :
  passes_through w (then_ (request w) data).
Proof.
  split; [rewrite then_settles_at; apply request_within_timeout|].
  unfold then_, request, settle.
  destruct w as [l [[d s]|e]|]; simpl.
  - destruct (N.ltb_spec l timeout); simpl;
      [destruct (accepted s) eqn:Hs; simpl|].
    + split; intros x; (split; [intros [= <-]; eauto 10|]).
      * intros (l' & s' & _ & _ & [= _ <- _]). done.
      * intros [(l' & _ & [=])|[(l' & d' & s' & _ & Hs' & _ & [= _ _ <-])
                                |[_ [[=]|(l' & r & Hle & [= <- _])]]]];
          [congruence|lia].
    + split; intros x; (split; [intros [= <-]; eauto 12|]).
      * intros (l' & s' & _ & Hs' & [= _ _ <-]). congruence.
      * intros [(l' & _ & [=])|[(l' & d' & s' & _ & _ & -> & [= _ _ <-])
                                |[_ [[=]|(l' & r & Hle & [= <- _])]]]];
          [done|lia].
    + split; intros x; (split; [intros [= <-]; eauto 12|]).
      * intros (l' & s' & Hlt & _ & [= <- _ _]). lia.
      * intros [(l' & _ & [=])|[(l' & d' & s' & Hlt & _ & _ & [= <- _ _])
                                |[-> _]]]; [lia|done].
  - destruct (N.ltb_spec l timeout); simpl.
    + split; intros x; (split; [intros [= <-]; eauto 10|]).
      * intros (l' & s' & _ & _ & [=]).
      * intros [(l' & _ & [= _ <-])|[(l' & d' & s' & _ & _ & _ & [=])
                                     |[_ [[=]|(l' & r & Hle & [= <- _])]]]];
          [done|lia].
    + split; intros x; (split; [intros [= <-]; eauto 12|]).
      * intros (l' & s' & _ & _ & [=]).
      * intros [(l' & Hlt & [= <- _])|[(l' & d' & s' & _ & _ & _ & [=])
                                       |[-> _]]]; [lia|done].
  - split; intros x; (split; [intros [= <-]; eauto 10|]).
    + intros (l' & s' & _ & _ & [=]).
    + intros [(l' & _ & [=])|[(l' & d' & s' & _ & _ & _ & [=])|[-> _]]]. done.
Qed.


(** ** [WeatherMonitor]: one cycle and what it does to the snapshot *)

Section Cycle.
Import WeatherMonitor.

Lemma tagged_settles_at {T} (f : string * promise AxiosError T) :
  settles_at (tagged f) = settles_at f.2.
Proof. apply then_settles_at. Qed.

Lemma tagged_all_fulfil {T} (fs : list (string * promise AxiosError T)) :
  Forall fulfils (map tagged fs) ↔ Forall (λ f, fulfils f.2) fs.
Proof.
  rewrite Forall_fmap. apply Forall_proper; [|done].
  intros f. apply then_fulfils.
Qed.

Lemma values_tagged_keys {T} (fs : list (string * promise AxiosError T)) :
  Forall (λ f, fulfils f.2) fs → (values (map tagged fs)).*1 = fs.*1.
Proof.
  induction 1 as [|[k p] fs Hp _ IH]; [done|].
  unfold fulfils in Hp. cbn in Hp |- *. unfold tagged at 1, then_. cbn.
  destruct (outcome p); [|done]. cbn. f_equal. exact IH.
Qed.

Lemma last_settled_tagged {T} (fs : list (string * promise AxiosError T)) k p :
  (k, p) ∈ fs → settles_at p ≤ last_settled (map tagged fs).
Proof.
  intros Hin.
  change (settles_at p) with (settles_at (k, p).2).
  rewrite <- (tagged_settles_at (k, p)).
  apply last_settled_upper, list_elem_of_fmap. eauto.
Qed.

(** Both awaits succeed exactly when every fetch fulfilled; the result is
    then ready when the last fetch settles. *)
Lemma awaited_all_success C :
  all_success C →
  awaited C =
    Settles (N.max (last_settled (map tagged (weather_fetches C)))
                   (last_settled (map tagged (threat_fetches C))))
            (Fulfilled (values (map tagged (weather_fetches C)),
                        values (map tagged (threat_fetches C)))).
Proof.
  intros [Hw Ht]. unfold awaited, await_both.
  by rewrite !all_fulfils by by apply tagged_all_fulfil.
Qed.

Lemma awaited_some_failure C :
  ¬ all_success C → ∃ t e, awaited C = Settles t (Rejected e).
Proof.
  intros Hnot. unfold awaited, await_both, all.
  destruct (first_rejection (map tagged (weather_fetches C)))
    as [[t e]|] eqn:Hw; simpl; [eauto|].
  destruct (first_rejection (map tagged (threat_fetches C)))
    as [[t e]|] eqn:Ht; simpl; [eauto|].
  destruct Hnot. split; apply tagged_all_fulfil, first_rejection_None; done.
Qed.

Lemma fails_in_not_all_success k C : fails_in k C → ¬ all_success C.
Proof.
  intros [(p & Hin & Hp)|(p & Hin & Hp)] [Hw Ht];
    [rewrite Forall_forall in Hw; specialize (Hw _ Hin)
    |rewrite Forall_forall in Ht; specialize (Ht _ Hin)];
    unfold fulfils, rejects in *; simpl in *; congruence.
Qed.

Lemma all_success_dec C : all_success C ∨ ¬ all_success C.
Proof.
  unfold all_success.
  destruct (first_rejection (map tagged (weather_fetches C))) eqn:Hw.
  - right. intros [H _]. apply tagged_all_fulfil, first_rejection_None in H.
    congruence.
  - destruct (first_rejection (map tagged (threat_fetches C))) eqn:Ht.
    + right. intros [_ H]. apply tagged_all_fulfil, first_rejection_None in H.
      congruence.
    + left. split; apply tagged_all_fulfil, first_rejection_None; done.
Qed.

(** The [catch] branch: nothing is set. *)
Lemma merge_some_failure S C : ¬ all_success C → merge S C = S.
Proof.
  intros (t & e & Heq)%awaited_some_failure. unfold merge. by rewrite Heq.
Qed.

(** The [try] branch: the displayed maps are the freshly built ones. *)
Lemma merge_all_success S C :
  all_success C →
  merge S C =
    {| weatherData := collect (values (map tagged (weather_fetches C)));
       threatAnalyses := collect (values (map tagged (threat_fetches C))) |}.
Proof. intros H. unfold merge. by rewrite awaited_all_success. Qed.

Lemma collect_lookup_None {T} (rs : list (string * T)) k :
  k ∉ rs.*1 → collect rs !! k = None.
Proof.
  unfold collect. generalize (∅ : gmap string T) (lookup_empty (M:=gmap string) (A:=T) k).
  induction rs as [|[k' v] rs IH]; intros acc Hacc Hnot; simpl; [done|].
  apply IH; [|set_solver].
  rewrite lookup_insert_ne; [done|]. set_solver.
Qed.

Lemma collect_dom {T} (rs : list (string * T)) k :
  is_Some (collect rs !! k) ↔ k ∈ rs.*1.
Proof.
  unfold collect.
  assert (∀ acc : gmap string T,
    is_Some (foldl (λ acc r, <[r.1 := r.2]> acc) acc rs !! k) ↔
    k ∈ rs.*1 ∨ is_Some (acc !! k)) as H.
  { induction rs as [|[k' v] rs IH]; intros acc; simpl; [set_solver|].
    rewrite IH, lookup_insert_is_Some'. set_solver. }
  rewrite H, lookup_empty, is_Some_alt. set_solver.
Qed.

Lemma fan_out_keys remote keys :
  (weather_fetches (fan_out remote keys)).*1 = keys ∧
  (threat_fetches (fan_out remote keys)).*1 = keys.
Proof.
  unfold fan_out; simpl. rewrite <- !list_fmap_compose.
  split; apply list_fmap_id.
Qed.

Lemma fan_out_weather_elem remote keys k :
  k ∈ keys → (k, getWeather remote k) ∈ weather_fetches (fan_out remote keys).
Proof. intros H. apply list_elem_of_fmap. eauto. Qed.

Lemma fan_out_threat_elem remote keys k :
  k ∈ keys → (k, analyzeThreat remote k) ∈ threat_fetches (fan_out remote keys).
Proof. intros H. apply list_elem_of_fmap. eauto. Qed.

Lemma awaited_within_timeout remote keys :
  settles_at (awaited (fan_out remote keys)) ≤ timeout.
Proof.
  set (C := fan_out remote keys).
  assert (∀ {T} (fs : list (string * promise AxiosError T)),
    Forall (λ f, settles_at f.2 ≤ timeout) fs →
    settles_at (all (map tagged fs)) ≤ timeout) as Hall.
  { intros T fs Hfs. unfold all.
    destruct (first_rejection _) as [[t e]|] eqn:Hr; simpl.
    - apply first_rejection_Some in Hr as [(p & Hin & _ & <-) _].
      apply list_elem_of_fmap in Hin as (f & -> & Hin).
      rewrite tagged_settles_at. rewrite Forall_forall in Hfs. by apply Hfs.
    - apply last_settled_bound, Forall_fmap.
      eapply Forall_impl; [done|]. intros f Hf. simpl.
      by rewrite tagged_settles_at. }
  assert (settles_at (all (map tagged (weather_fetches C))) ≤ timeout) as Hw.
  { apply Hall, Forall_fmap, Forall_forall. intros k _. simpl.
    unfold getWeather. rewrite then_settles_at. apply request_within_timeout. }
  assert (settles_at (all (map tagged (threat_fetches C))) ≤ timeout) as Ht.
  { apply Hall, Forall_fmap, Forall_forall. intros k _. simpl.
    unfold analyzeThreat. rewrite then_settles_at. apply request_within_timeout. }
  by apply await_both_bound.
Qed.

End Cycle.

(** C8, as the code has it.  A service call converts nothing.  It settles
    within the 10000 ms ceiling of the axios instance; it fulfils with the
    data of a response that arrived in time with a status axios accepts
    (200 to 299); and otherwise it rejects with the raw axios error: the
    status error of a response with a refused status, the transport's own
    error, or [ECONNABORTED] when the ceiling was exceeded.  This holds
    alike for [weatherService.getWeather], for [alertService.getAlerts] as
    the panel calls it, and for [alertService.generateTestAlerts].  The
    rejection is dealt with by the caller's [try]/[catch]: a rejected
    [getAlerts] leaves the alerts of the panel as they were and ends its
    loading state, and a rejected [getWeather] for one of the regions leaves
    the snapshot of the weather monitor as it was and ends its loading and
    refreshing states. *)
Theorem service_calls_pass_transport_outcome_through
    (remote : backend) (city : string) :
  passes_through (weather remote ("/weather/" +:+ city)) (getWeather remote city) ∧
  passes_through (alerts remote "/alerts?limit=20") (getAlerts remote 20) ∧
  passes_through (generate_alerts remote "/test/generate-alerts")
                 (generateTestAlerts remote) ∧
  (rejects (getAlerts remote 20) →
     ∀ c, AlertsPanel.fetchAlerts_resume remote c
            = {| AlertsPanel.alerts := AlertsPanel.alerts c;
                 AlertsPanel.loading := false;
                 AlertsPanel.generating := AlertsPanel.generating c |}) ∧
  (rejects (getWeather remote city) → city ∈ WeatherMonitor.regions →
     ∀ st, WeatherMonitor.ui (WeatherMonitor.fetchWeatherData_resume remote st)
             = {| WeatherMonitor.snapshot :=
                    WeatherMonitor.snapshot (WeatherMonitor.ui st);
                  WeatherMonitor.loading := false;
                  WeatherMonitor.refreshing := false |}).
Proof.
  split; [apply service_passes_through|].
  split; [apply service_passes_through|].
  split; [apply service_passes_through|]. split.
  - intros Hrej c. unfold AlertsPanel.fetchAlerts_resume. unfold rejects in Hrej.
    by destruct (outcome (getAlerts remote 20)).
  - intros Hrej Hin st. unfold WeatherMonitor.fetchWeatherData_resume. simpl.
    rewrite merge_some_failure; [done|].
    apply (fails_in_not_all_success city). left.
    exists (getWeather remote city). split; [|done].
    by apply fan_out_weather_elem.
Qed.

(** C8 as stated fails: a request that cannot reach the API, one that is
    never answered and one that is answered with status 503 each make
    [getWeather] reject with the raw axios error; the call does not always
    fulfil with an outcome value. *)
Lemma getWeather_rejects_with_raw_error :
  getWeather Fixtures.unreachable "delhi" = Settles 5 (Rejected ERR_NETWORK) ∧
  getWeather Fixtures.mumbai_silent "mumbai" = Settles 10000 (Rejected ECONNABORTED) ∧
  getWeather Fixtures.mumbai_refused "mumbai"
    = Settles 5 (Rejected (ERR_BAD_RESPONSE 503)) ∧
  ¬ (∀ remote key, fulfils (getWeather remote key)).
Proof.
  split; [reflexivity|]. split; [reflexivity|]. split; [reflexivity|].
  intros H. specialize (H Fixtures.unreachable "delhi"). discriminate H.
Qed.

(** ** The claims about one cycle and about the merge *)

Section MergeClaims.
Import WeatherMonitor.

(** C1, as the code has it.  One cycle issues the weather and the threat
    fetch of every key before it awaits anything and never waits longer than
    the timeout ceiling.  It is all or nothing: when every fetch fulfils, the
    awaited result holds one value per requested key, in the order of the
    keys, and is ready only once the last fetch has settled; when any fetch
    rejects, the awaited result is that rejection and the snapshot is left as
    it was, so no key receives an outcome; and a rejecting weather fetch ends
    the wait at once, whatever the other fetches still do. *)
Theorem fan_out_is_all_or_nothing
    (remote : backend) (keys : list string) (S : Snapshot) :
  let C := fan_out remote keys in
  ((weather_fetches C).*1 = keys ∧ (threat_fetches C).*1 = keys) ∧
  settles_at (awaited C) ≤ timeout ∧
  (all_success C →
     ∃ wr tr, outcome (awaited C) = Fulfilled (wr, tr) ∧
       wr.*1 = keys ∧ tr.*1 = keys ∧
       ∀ k, k ∈ keys →
         settles_at (getWeather remote k) ≤ settles_at (awaited C) ∧
         settles_at (analyzeThreat remote k) ≤ settles_at (awaited C)) ∧
  (∀ k, k ∈ keys →
     rejects (getWeather remote k) ∨ rejects (analyzeThreat remote k) →
     (∃ e, outcome (awaited C) = Rejected e) ∧ merge S C = S) ∧
  (∀ k, k ∈ keys → rejects (getWeather remote k) →
     settles_at (awaited C) ≤ settles_at (getWeather remote k)).
Proof.
  intros C. split; [apply fan_out_keys|].
  split; [apply awaited_within_timeout|].
  split; [|split].
  - intros Hall. rewrite (awaited_all_success _ Hall).
    destruct Hall as [Hw Ht].
    eexists _, _. split; [done|].
    rewrite !values_tagged_keys by done.
    split; [apply fan_out_keys|]. split; [apply fan_out_keys|].
    intros k Hk.
    pose proof (last_settled_tagged _ _ _ (fan_out_weather_elem remote keys k Hk)).
    pose proof (last_settled_tagged _ _ _ (fan_out_threat_elem remote keys k Hk)).
    cbn [settles_at]. fold C in H, H0. lia.
  - intros k Hk Hrej.
    assert (fails_in k C) as Hfail.
    { destruct Hrej as [Hr|Hr]; [left|right]; eexists; split; try exact Hr.
      - by apply fan_out_weather_elem.
      - by apply fan_out_threat_elem. }
    apply fails_in_not_all_success in Hfail.
    split; [|by apply merge_some_failure].
    destruct (awaited_some_failure _ Hfail) as (t & e & ->). eauto.
  - intros k Hk Hrej. unfold awaited, await_both, all.
    destruct (first_rejection (map tagged (weather_fetches C)))
      as [[t e]|] eqn:Hr; simpl.
    + apply first_rejection_Some in Hr as [_ Hmin].
      change (getWeather remote k) with (k, getWeather remote k).2.
      rewrite <- tagged_settles_at. apply Hmin.
      * apply list_elem_of_fmap. eexists. split; [done|].
        by apply fan_out_weather_elem.
      * by apply then_rejects.
    + apply first_rejection_None, tagged_all_fulfil in Hr.
      rewrite Forall_forall in Hr.
      specialize (Hr _ (fan_out_weather_elem remote keys k Hk)).
      unfold fulfils, rejects in *. simpl in *. congruence.
Qed.

(** C1 as stated fails.  With Mumbai's weather request refused after 5 ms
    and every other request answered after 100 ms, the cycle is abandoned at
    5 ms, before Delhi's answer has arrived, and once it has resumed the
    snapshot holds nothing for Delhi, whose fetches both succeeded.  With
    Mumbai's request never answered the cycle ends at the 10000 ms ceiling
    with the same empty snapshot. *)
Lemma one_failing_key_aborts_the_cycle :
  awaited (fan_out Fixtures.mumbai_refused regions)
    = Settles 5 (Rejected (ERR_BAD_RESPONSE 503)) ∧
  getWeather Fixtures.mumbai_refused "delhi"
    = Settles 100 (Fulfilled (Fixtures.sample_weather "delhi" 30%Q)) ∧
  fulfils (analyzeThreat Fixtures.mumbai_refused "delhi") ∧
  (snapshot ∘ ui) <$> run [Mount; Settled Fixtures.mumbai_refused] initial
    = Some Fixtures.nothing_yet ∧
  awaited (fan_out Fixtures.mumbai_silent regions)
    = Settles 10000 (Rejected ECONNABORTED) ∧
  (snapshot ∘ ui) <$> run [Mount; Settled Fixtures.mumbai_silent] initial
    = Some Fixtures.nothing_yet.
Proof. repeat split; vm_compute; reflexivity. Qed.

(** C2, as the code has it.  When a fetch issued for a key rejects, the merge
    returns the previous snapshot itself: an entry the key had keeps its
    value, and a key that had no entry stays absent, in both maps.  Likewise
    a failing [fetchAlerts] leaves the alerts as they were.  The snapshot
    carries the values only; nothing records when an entry was fetched or
    whether it is stale. *)
Theorem failing_key_keeps_previous_entry
    (S : Snapshot) (C : CycleResult) (k : string) :
  fails_in k C →
  merge S C = S ∧
  weatherData (merge S C) !! k = weatherData S !! k ∧
  threatAnalyses (merge S C) !! k = threatAnalyses S !! k ∧
  (∀ remote c, rejects (getAlerts remote 20) →
     AlertsPanel.alerts (AlertsPanel.fetchAlerts_resume remote c)
       = AlertsPanel.alerts c).
Proof.
  intros Hfail.
  rewrite (merge_some_failure S C (fails_in_not_all_success _ _ Hfail)).
  repeat split. intros remote c Hrej. unfold rejects in Hrej. simpl.
  by destruct (outcome (getAlerts remote 20)).
Qed.

Lemma mumbai_fails_when_refused :
  fails_in "mumbai" (fan_out Fixtures.mumbai_refused regions).
Proof.
  left. exists (getWeather Fixtures.mumbai_refused "mumbai").
  split; [|reflexivity].
  apply fan_out_weather_elem. unfold regions. set_solver.
Defined.

Lemma failing_key_keeps_previous_entry_witness :
  fails_in "mumbai" (fan_out Fixtures.mumbai_refused regions) ∧
  merge Fixtures.pune_only (fan_out Fixtures.mumbai_refused regions)
    = Fixtures.pune_only.
Proof.
  split; [exact mumbai_fails_when_refused|].
  exact (proj1 (failing_key_keeps_previous_entry Fixtures.pune_only _ "mumbai"
                  mumbai_fails_when_refused)).
Defined.

(** C2 as stated fails on the freshness flag.  After a cycle in which every
    fetch succeeded, a cycle in which Mumbai's fetch fails leaves the cells
    of the component exactly as they were; Mumbai's entry is there, and
    nothing computed from the cells can tell it fresh before the failing
    cycle and stale after it. *)
Lemma retained_entry_is_not_marked_stale :
  let before := ui <$> run [Mount; Settled Fixtures.healthy] initial in
  let after := ui <$> run [Mount; Settled Fixtures.healthy;
                           Tick; Settled Fixtures.mumbai_refused] initial in
  after = before ∧
  (weatherData ∘ snapshot <$> before) ≫= (.!! "mumbai")
    = Some (Fixtures.sample_weather "mumbai" 30%Q) ∧
  ¬ (∃ stale : option cells → string → bool,
       stale before "mumbai" = false ∧ stale after "mumbai" = true).
Proof.
  assert (ui <$> run [Mount; Settled Fixtures.healthy;
                      Tick; Settled Fixtures.mumbai_refused] initial
          = ui <$> run [Mount; Settled Fixtures.healthy] initial) as Heq
    by (vm_compute; reflexivity).
  cbv zeta. split; [exact Heq|]. split; [vm_compute; reflexivity|].
  intros (stale & Hb & Ha). rewrite Heq in Ha. congruence.
Qed.

Lemma healthy_all_success : all_success (fan_out Fixtures.healthy regions).
Proof. split; repeat constructor. Defined.

Lemma collect_keys {T} (rs : list (string * T)) :
  dom (collect rs) = list_to_set rs.*1.
Proof.
  apply set_eq. intros k.
  by rewrite elem_of_dom, collect_dom, elem_of_list_to_set.
Qed.

(** A cycle over [regions] takes a snapshot without keys, or with the keys
    of [regions], to one of the same kind. *)
Lemma merge_covers_none_or_all S remote :
  covers_none_or_all S →
  covers_none_or_all (merge S (fan_out remote regions)).
Proof.
  intros HS. destruct (all_success_dec (fan_out remote regions)) as [Hall|Hnot].
  - right. rewrite (merge_all_success _ _ Hall). destruct Hall as [Hw Ht].
    cbn [weatherData threatAnalyses].
    rewrite !collect_keys, !values_tagged_keys by done.
    by rewrite (proj1 (fan_out_keys _ _)), (proj2 (fan_out_keys _ _)).
  - by rewrite merge_some_failure.
Qed.

Lemma step_snapshot st e st' :
  step st e = Some st' →
  snapshot (ui st') = snapshot (ui st) ∨
  ∃ remote, snapshot (ui st') = merge (snapshot (ui st)) (fan_out remote regions).
Proof.
  unfold step. destruct e, (lifecycle st); try done;
    repeat case_match; try done; intros [= <-]; simpl; eauto.
Qed.

Lemma run_covers_none_or_all es : ∀ st st',
  run es st = Some st' →
  covers_none_or_all (snapshot (ui st)) →
  covers_none_or_all (snapshot (ui st')).
Proof.
  induction es as [|e es IH]; simpl; intros st st'; [by intros [= <-]|].
  destruct (step st e) as [st1|] eqn:Hstep; [|done].
  intros Hrun HS. apply (IH _ _ Hrun).
  destruct (step_snapshot _ _ _ Hstep) as [->|[remote ->]]; [done|].
  by apply merge_covers_none_or_all.
Qed.





(** C4.  When every fetch of the cycle fulfilled, merging the cycle a second
    time changes nothing. *)
Theorem merge_idempotent_on_success (S : Snapshot) (C : CycleResult) :
  all_success C → merge (merge S C) C = merge S C.
Proof. intros Hall. by rewrite !(merge_all_success _ _ Hall). Qed.

Lemma merge_idempotent_on_success_witness :
  all_success (fan_out Fixtures.healthy regions) ∧
  merge (merge Fixtures.pune_only (fan_out Fixtures.healthy regions))
        (fan_out Fixtures.healthy regions)
    = merge Fixtures.pune_only (fan_out Fixtures.healthy regions).
Proof.
  split; [exact healthy_all_success|].
  exact (merge_idempotent_on_success Fixtures.pune_only _ healthy_all_success).
Defined.

End MergeClaims.

(** ** The components as schedulers *)

Lemma in_flight_fetchAlerts_call st :
  AlertsPanel.in_flight (AlertsPanel.fetchAlerts_call st)
    = S (AlertsPanel.in_flight st).
Proof.
  unfold AlertsPanel.in_flight, AlertsPanel.fetchAlerts_call. simpl.
  rewrite filter_app, length_app. simpl. lia.
Qed.

Lemma in_flight_delete_fetch st i k :
  AlertsPanel.suspended st !! i = Some k →
  AlertsPanel.is_fetch k = true →
  S (length (filter (λ k, AlertsPanel.is_fetch k = true)
               (delete i (AlertsPanel.suspended st))))
    = AlertsPanel.in_flight st.
Proof.
  intros Hi Hk. unfold AlertsPanel.in_flight.
  rewrite <- (take_drop_middle _ _ _ Hi) at 2.
  rewrite delete_take_drop, !filter_app, !length_app, filter_cons_True by done.
  simpl. lia.
Qed.

(** C5, as the code has it.  While a component is running, every tick of its
    interval calls the fetch function: the tick is always delivered, it adds
    one cycle to those in flight whether or not one is in flight already,
    and it leaves the interval armed. *)
Theorem every_tick_starts_a_cycle :
  (∀ st, WeatherMonitor.lifecycle st = Running →
     ∃ st', WeatherMonitor.step st WeatherMonitor.Tick = Some st' ∧
            WeatherMonitor.in_flight st' = S (WeatherMonitor.in_flight st) ∧
            WeatherMonitor.lifecycle st' = Running) ∧
  (∀ st, AlertsPanel.lifecycle st = Running →
     ∃ st', AlertsPanel.step st AlertsPanel.Tick = Some st' ∧
            AlertsPanel.in_flight st' = S (AlertsPanel.in_flight st) ∧
            AlertsPanel.lifecycle st' = Running) ∧
  (∀ st, SystemOverview.lifecycle st = Running →
     ∃ st', SystemOverview.step st SystemOverview.Tick = Some st' ∧
            SystemOverview.in_flight st' = S (SystemOverview.in_flight st) ∧
            SystemOverview.lifecycle st' = Running).
Proof.
  split; [|split]; intros st Hrun.
  - eexists. unfold WeatherMonitor.step. rewrite Hrun. by repeat split.
  - eexists. unfold AlertsPanel.step. rewrite Hrun.
    split; [done|]. split; [apply in_flight_fetchAlerts_call|done].
  - eexists. unfold SystemOverview.step. rewrite Hrun. by repeat split.
Qed.

(** C5 as stated fails.  A refresh is clicked once the first cycle is back,
    so one cycle is in flight when the interval ticks; the tick starts a
    second one next to it, in the weather monitor and in the alerts panel.
    Hence "at most one cycle in flight" is not an invariant of either. *)
Lemma tick_during_cycle_starts_second_cycle :
  WeatherMonitor.in_flight <$>
    WeatherMonitor.run [WeatherMonitor.Mount;
                        WeatherMonitor.Settled Fixtures.healthy;
                        WeatherMonitor.ClickRefresh] WeatherMonitor.initial
    = Some 1%nat ∧
  WeatherMonitor.in_flight <$>
    WeatherMonitor.run [WeatherMonitor.Mount;
                        WeatherMonitor.Settled Fixtures.healthy;
                        WeatherMonitor.ClickRefresh;
                        WeatherMonitor.Tick] WeatherMonitor.initial
    = Some 2%nat ∧
  AlertsPanel.in_flight <$>
    AlertsPanel.run [AlertsPanel.Mount;
                     AlertsPanel.Settled 0 Fixtures.healthy;
                     AlertsPanel.ClickRefresh] AlertsPanel.initial
    = Some 1%nat ∧
  AlertsPanel.in_flight <$>
    AlertsPanel.run [AlertsPanel.Mount;
                     AlertsPanel.Settled 0 Fixtures.healthy;
                     AlertsPanel.ClickRefresh;
                     AlertsPanel.Tick] AlertsPanel.initial
    = Some 2%nat ∧
  ¬ (∀ es st, WeatherMonitor.run es WeatherMonitor.initial = Some st →
              (WeatherMonitor.in_flight st ≤ 1)%nat) ∧
  ¬ (∀ es st, AlertsPanel.run es AlertsPanel.initial = Some st →
              (AlertsPanel.in_flight st ≤ 1)%nat).
Proof.
  do 4 (split; [vm_compute; reflexivity|]). split.
  - intros H.
    specialize (H [WeatherMonitor.Mount;
                   WeatherMonitor.Settled Fixtures.healthy;
                   WeatherMonitor.ClickRefresh;
                   WeatherMonitor.Tick] _ eq_refl).
    vm_compute in H. lia.
  - intros H.
    specialize (H [AlertsPanel.Mount;
                   AlertsPanel.Settled 0 Fixtures.healthy;
                   AlertsPanel.ClickRefresh;
                   AlertsPanel.Tick] _ eq_refl).
    vm_compute in H. lia.
Qed.

(** C6, as the code has it.  No refresh request is ever deferred.  In the
    alerts panel every click on Refresh starts its own cycle at once, next
    to those in flight.  In the weather monitor the button is disabled while
    [refreshing] is set, so no request can be made then, and a click on the
    enabled button starts a cycle at once.  In either component a fetch that
    resumes starts no further cycle: the number in flight goes down by
    one. *)
Theorem refresh_starts_at_once_or_not_at_all :
  (∀ st, AlertsPanel.lifecycle st = Running →
         AlertsPanel.loading (AlertsPanel.ui st) = false →
     ∃ st', AlertsPanel.step st AlertsPanel.ClickRefresh = Some st' ∧
            AlertsPanel.in_flight st' = S (AlertsPanel.in_flight st)) ∧
  (∀ st, WeatherMonitor.refreshing (WeatherMonitor.ui st) = true →
     WeatherMonitor.step st WeatherMonitor.ClickRefresh = None) ∧
  (∀ st, WeatherMonitor.lifecycle st = Running →
         WeatherMonitor.refresh_enabled st = true →
     ∃ st', WeatherMonitor.step st WeatherMonitor.ClickRefresh = Some st' ∧
            WeatherMonitor.in_flight st' = S (WeatherMonitor.in_flight st)) ∧
  (∀ st remote st',
     WeatherMonitor.step st (WeatherMonitor.Settled remote) = Some st' →
     S (WeatherMonitor.in_flight st') = WeatherMonitor.in_flight st) ∧
  (∀ st i remote st' k,
     AlertsPanel.suspended st !! i = Some k → AlertsPanel.is_fetch k = true →
     AlertsPanel.step st (AlertsPanel.Settled i remote) = Some st' →
     S (AlertsPanel.in_flight st') = AlertsPanel.in_flight st).
Proof.
  repeat apply conj.
  - intros st Hrun Hload. eexists. unfold AlertsPanel.step.
    rewrite Hrun, Hload. split; [done|apply in_flight_fetchAlerts_call].
  - intros st Href. unfold WeatherMonitor.step, WeatherMonitor.refresh_enabled.
    rewrite Href, andb_false_r. by destruct (WeatherMonitor.lifecycle st).
  - intros st Hrun Hen. eexists. unfold WeatherMonitor.step.
    rewrite Hrun, Hen. by split.
  - intros st remote st'. unfold WeatherMonitor.step.
    destruct (WeatherMonitor.lifecycle st),
             (WeatherMonitor.in_flight st) eqn:Hn; try done;
      intros [= <-]; simpl; by rewrite Hn.
  - intros st i remote st' k Hi Hk.
    assert (AlertsPanel.step st (AlertsPanel.Settled i remote)
            = AlertsPanel.resume i remote st) as ->
      by (unfold AlertsPanel.step; by destruct (AlertsPanel.lifecycle st)).
    unfold AlertsPanel.resume.
    rewrite Hi. destruct k; [|done|]; intros [= <-];
      unfold AlertsPanel.in_flight at 1; simpl;
      by eapply in_flight_delete_fetch.
Qed.

(** C6 as stated fails.  In the alerts panel two clicks on Refresh while the
    cycle of a tick is in flight start two more cycles at once: three run
    side by side.  In the weather monitor the click cannot be made while the
    cycle of a tick is in flight, and when that cycle is back none is in
    flight: no extra cycle follows. *)
Lemma refresh_requests_are_not_coalesced :
  AlertsPanel.in_flight <$>
    AlertsPanel.run [AlertsPanel.Mount;
                     AlertsPanel.Settled 0 Fixtures.healthy;
                     AlertsPanel.Tick] AlertsPanel.initial
    = Some 1%nat ∧
  AlertsPanel.in_flight <$>
    AlertsPanel.run [AlertsPanel.Mount;
                     AlertsPanel.Settled 0 Fixtures.healthy;
                     AlertsPanel.Tick;
                     AlertsPanel.ClickRefresh;
                     AlertsPanel.ClickRefresh] AlertsPanel.initial
    = Some 3%nat ∧
  WeatherMonitor.run [WeatherMonitor.Mount;
                      WeatherMonitor.Settled Fixtures.healthy;
                      WeatherMonitor.Tick;
                      WeatherMonitor.ClickRefresh] WeatherMonitor.initial
    = None ∧
  WeatherMonitor.in_flight <$>
    WeatherMonitor.run [WeatherMonitor.Mount;
                        WeatherMonitor.Settled Fixtures.healthy;
                        WeatherMonitor.Tick;
                        WeatherMonitor.Settled Fixtures.healthy]
                       WeatherMonitor.initial
    = Some 0%nat.
Proof. repeat split; vm_compute; reflexivity. Qed.



(** *** The loading flag *)









(** A first fetch that fails ends the loading state and leaves the empty
    list; later ticks, clicks and fetches do not bring the loading state
    back. *)
Lemma failing_first_fetch_ends_loading :
  (λ st, (AlertsPanel.loading (AlertsPanel.ui st),
          AlertsPanel.alerts (AlertsPanel.ui st))) <$>
    AlertsPanel.run [AlertsPanel.Mount;
                     AlertsPanel.Settled 0 Fixtures.unreachable]
                    AlertsPanel.initial
    = Some (false, []) ∧
  AlertsPanel.loading ∘ AlertsPanel.ui <$>
    AlertsPanel.run [AlertsPanel.Mount;
                     AlertsPanel.Settled 0 Fixtures.unreachable;
                     AlertsPanel.Tick; AlertsPanel.ClickRefresh;
                     AlertsPanel.ClickGenerate;
                     AlertsPanel.Settled 2 Fixtures.healthy;
                     AlertsPanel.Settled 0 Fixtures.unreachable;
                     AlertsPanel.Settled 1 Fixtures.healthy]
                    AlertsPanel.initial
    = Some false.
Proof. split; vm_compute; reflexivity. Qed.

(** ** The report form *)

Lemma handleSubmit_resume_fulfilled {P} (onSubmitted : P → P) remote report c p :
  fulfils (submitReport remote report) →
  ReportSubmissionForm.handleSubmit_resume onSubmitted remote report (c, p)
    = (ReportSubmissionForm.setSubmitting false c, onSubmitted p).
Proof.
  unfold fulfils, ReportSubmissionForm.handleSubmit_resume.
  by destruct (outcome (submitReport remote report)).
Qed.

Lemma handleSubmit_resume_rejected {P} (onSubmitted : P → P) remote report c p :
  rejects (submitReport remote report) →
  ReportSubmissionForm.handleSubmit_resume onSubmitted remote report (c, p)
    = (ReportSubmissionForm.setSubmitting false c, p).
Proof.
  unfold rejects, ReportSubmissionForm.handleSubmit_resume.
  by destruct (outcome (submitReport remote report)).
Qed.

(** C10.  [handleSubmit] sets the submitting flag while the report is on its
    way and resets it to false at the end, whether the submission resolved
    or rejected.  It calls [onSubmitted] exactly once when
    [citizenService.submitReport] resolves and not at all when it rejects:
    with a callback that counts its calls the count goes up by one in the
    first case and stays as it was in the second.  On the citizen reports
    page, where the callback is [handleReportSubmitted], a rejected
    submission leaves the page as it was, the form still shown, and a
    resolved one closes the form and starts a fetch of the reports. *)
Theorem handleSubmit_calls_onSubmitted_iff_resolved
    (remote : backend) (c : ReportSubmissionForm.cells)
    (page : CitizenReports.state) (calls : nat) :
  let report := ReportSubmissionForm.formData c in
  let resolved := is_fulfilled (outcome (submitReport remote report)) in
  ReportSubmissionForm.handleSubmit_call c
    = (ReportSubmissionForm.setSubmitting true c, report) ∧
  ReportSubmissionForm.submitting
    (CitizenReports.form_handleSubmit remote (c, page)).1 = false ∧
  (ReportSubmissionForm.handleSubmit S remote (c, calls)).2
    = (if resolved then S calls else calls) ∧
  (CitizenReports.form_handleSubmit remote (c, page)).2
    = (if resolved then CitizenReports.handleReportSubmitted page else page) ∧
  CitizenReports.showForm (CitizenReports.ui
      (CitizenReports.form_handleSubmit remote (c, page)).2)
    = (if resolved then false
       else CitizenReports.showForm (CitizenReports.ui page)).
Proof.
  intros report resolved. split; [done|].
  unfold CitizenReports.form_handleSubmit, ReportSubmissionForm.handleSubmit,
    ReportSubmissionForm.handleSubmit_call.
  cbn [fst snd]. fold report.
  destruct (fulfils_or_rejects (submitReport remote report)) as [H|H].
  - rewrite !handleSubmit_resume_fulfilled by done.
    unfold resolved. unfold fulfils in H. by rewrite H.
  - rewrite !handleSubmit_resume_rejected by done.
    unfold resolved. unfold rejects in H. by rewrite H.
Qed.

(** Both cases occur: a report sent to a healthy API closes the form opened
    on the page, one sent to an unreachable API leaves it open. *)
Lemma handleSubmit_examples :
  let page := CitizenReports.setShowForm true CitizenReports.initial in
  CitizenReports.showForm ∘ CitizenReports.ui ∘ snd $
    CitizenReports.form_handleSubmit Fixtures.healthy
      (ReportSubmissionForm.initial, page) = false ∧
  CitizenReports.showForm ∘ CitizenReports.ui ∘ snd $
    CitizenReports.form_handleSubmit Fixtures.unreachable
      (ReportSubmissionForm.initial, page) = true ∧
  snd (ReportSubmissionForm.handleSubmit S Fixtures.healthy
         (ReportSubmissionForm.initial, 0%nat)) = 1%nat ∧
  snd (ReportSubmissionForm.handleSubmit S Fixtures.unreachable
         (ReportSubmissionForm.initial, 0%nat)) = 0%nat.
Proof. repeat split. Qed.

(** * Further properties of the code *)

(** ** [WeatherMonitor]: what a successful cycle displays *)

Section Displayed.
Import WeatherMonitor.

(** X3.  The loop that builds a map from the results of a cycle keeps, for
    every key, the value of the last result listed under that key, and has
    no entry for a key under which no result is listed. *)
Theorem collect_last_write_wins {T} (rs : list (string * T)) (k : string) :
  collect rs !! k = snd <$> last (filter (λ r, r.1 = k) rs).
Proof.
  induction rs as [|r rs IH] using rev_ind; [done|].
  unfold collect in *. rewrite foldl_app, filter_app. simpl.
  rewrite filter_cons, filter_nil. case_decide as Hk.
  - rewrite last_snoc. simpl. rewrite Hk. apply lookup_insert_eq.
  - rewrite app_nil_r, lookup_insert_ne by done. apply IH.
Qed.

Lemma collect_lookup_functional {T} (rs : list (string * T)) k v :
  (k, v) ∈ rs → (∀ v', (k, v') ∈ rs → v' = v) → collect rs !! k = Some v.
Proof.
  intros Hin Hfun. rewrite collect_last_write_wins.
  destruct (last (filter (λ r, r.1 = k) rs)) as [[k' v']|] eqn:Hlast.
  - apply last_Some_elem_of, list_elem_of_filter in Hlast as [Hk Hr].
    simpl in Hk. subst k'. simpl. f_equal. by apply Hfun.
  - apply last_None in Hlast.
    assert ((k, v) ∈ filter (λ r, r.1 = k) rs) as Hf
      by by apply list_elem_of_filter.
    rewrite Hlast in Hf. by apply not_elem_of_nil in Hf.
Qed.

Lemma values_tagged_elem {T} (fs : list (string * promise AxiosError T)) k v :
  (k, v) ∈ values (map tagged fs) ↔
  ∃ p, (k, p) ∈ fs ∧ outcome p = Fulfilled v.
Proof.
  induction fs as [|[k' p'] fs IH]; simpl.
  - split; [by intros ?%not_elem_of_nil|].
    by intros (p & ?%not_elem_of_nil & _).
  - unfold tagged at 1, then_. simpl.
    destruct (outcome p') as [v'|e] eqn:Hp'; simpl.
    + rewrite elem_of_cons, IH. split.
      * intros [[= -> ->]|(p & Hin & Hp)]; [exists p'|exists p];
          (split; [set_solver|done]).
      * intros (p & [[= -> ->]|Hin]%elem_of_cons & Hp).
        -- left. congruence.
        -- right. eauto.
    + rewrite IH. split.
      * intros (p & Hin & Hp). exists p. split; [set_solver|done].
      * intros (p & [[= -> ->]|Hin]%elem_of_cons & Hp); [congruence|eauto].
Qed.

(** X2.  After a cycle in which every fetch fulfilled, every requested key
    has, in each of the two maps, the data that the request for that very
    key returned. *)
Theorem successful_cycle_shows_each_key_its_own_data
    (remote : backend) (keys : list string) (S : Snapshot) (k : string) :
  all_success (fan_out remote keys) → k ∈ keys →
  ∃ w t,
    outcome (getWeather remote k) = Fulfilled w ∧
    outcome (analyzeThreat remote k) = Fulfilled t ∧
    weatherData (merge S (fan_out remote keys)) !! k = Some w ∧
    threatAnalyses (merge S (fan_out remote keys)) !! k = Some t.
Proof.
  intros Hall Hk. rewrite (merge_all_success _ _ Hall).
  destruct Hall as [Hw Ht].
  rewrite Forall_forall in Hw. rewrite Forall_forall in Ht.
  pose proof (Hw _ (fan_out_weather_elem remote keys k Hk)) as Hfw.
  pose proof (Ht _ (fan_out_threat_elem remote keys k Hk)) as Hft.
  unfold fulfils in Hfw, Hft. simpl in Hfw, Hft.
  destruct (outcome (getWeather remote k)) as [w|] eqn:Ew; [|done].
  destruct (outcome (analyzeThreat remote k)) as [t|] eqn:Et; [|done].
  exists w, t. split; [done|]. split; [done|]. simpl. split.
  - apply collect_lookup_functional.
    + apply values_tagged_elem. eexists. split; [|exact Ew].
      by apply fan_out_weather_elem.
    + intros v' (p & Hin & Hp)%values_tagged_elem.
      apply list_elem_of_fmap in Hin as (k' & [= <- ->] & _). congruence.
  - apply collect_lookup_functional.
    + apply values_tagged_elem. eexists. split; [|exact Et].
      by apply fan_out_threat_elem.
    + intros v' (p & Hin & Hp)%values_tagged_elem.
      apply list_elem_of_fmap in Hin as (k' & [= <- ->] & _). congruence.
Qed.

Lemma successful_cycle_witness :
  all_success (fan_out Fixtures.healthy regions) ∧ "mumbai" ∈ regions ∧
  ∃ w t,
    outcome (getWeather Fixtures.healthy "mumbai") = Fulfilled w ∧
    outcome (analyzeThreat Fixtures.healthy "mumbai") = Fulfilled t ∧
    weatherData (merge Fixtures.pune_only (fan_out Fixtures.healthy regions))
      !! "mumbai" = Some w ∧
    threatAnalyses (merge Fixtures.pune_only (fan_out Fixtures.healthy regions))
      !! "mumbai" = Some t.
Proof.
  assert ("mumbai" ∈ regions) as Hin by (unfold regions; set_solver).
  split; [exact healthy_all_success|]. split; [exact Hin|].
  exact (successful_cycle_shows_each_key_its_own_data
           Fixtures.healthy regions Fixtures.pune_only "mumbai"
           healthy_all_success Hin).
Defined.

End Displayed.

(** ** [WeatherMonitor]: the keys of the maps *)

Section Keys.
Import WeatherMonitor.

(** X1.  Whatever events the weather monitor has been through, its two maps
    have the same keys: none at all, or exactly the five regions.  The
    state never holds an entry for some regions and not for the others,
    nor a weather entry without a threat entry. *)
Theorem maps_cover_none_or_all_regions (es : list event) (st : state) :
  run es initial = Some st →
  covers_none_or_all (snapshot (ui st)).
Proof.
  intros Hrun. apply (run_covers_none_or_all es _ _ Hrun). left. by split.
Qed.

Lemma maps_cover_none_or_all_regions_witness :
  ∃ st, run [Mount; Settled Fixtures.healthy;
             Tick; Settled Fixtures.mumbai_refused] initial = Some st ∧
        covers_none_or_all (snapshot (ui st)).
Proof.
  eexists. split; [reflexivity|].
  exact (maps_cover_none_or_all_regions
           [Mount; Settled Fixtures.healthy; Tick; Settled Fixtures.mumbai_refused]
           _ eq_refl).
Defined.

End Keys.

(** ** The flags and the fetches in flight *)

Lemma filter_length_delete {A} (P : A → Prop) `{!∀ x, Decision (P x)}
    (l : list A) i k :
  l !! i = Some k →
  length (filter P l)
    = (length (filter P (delete i l)) + (if decide (P k) then 1 else 0))%nat.
Proof.
  intros Hi. rewrite <- (take_drop_middle _ _ _ Hi) at 1.
  rewrite delete_take_drop, !filter_app, filter_cons, !length_app.
  case_decide; simpl; lia.
Qed.

Lemma filter_length_insert {A} (P : A → Prop) `{!∀ x, Decision (P x)}
    (l : list A) i k k' :
  l !! i = Some k →
  (length (filter P (<[i := k']> l)) + (if decide (P k) then 1 else 0))%nat
    = (length (filter P l) + (if decide (P k') then 1 else 0))%nat.
Proof.
  intros Hi. rewrite <- (take_drop_middle _ _ _ Hi) at 2.
  rewrite insert_take_drop by by eapply lookup_lt_Some.
  rewrite !filter_app, !filter_cons, !length_app.
  repeat case_decide; simpl; lia.
Qed.

Lemma WeatherMonitor_run_pending es : ∀ st st',
  WeatherMonitor.run es st = Some st' →
  (WeatherMonitor.lifecycle st = Idle → WeatherMonitor.in_flight st = 0%nat) ∧
  (WeatherMonitor.lifecycle st ≠ Idle →
   WeatherMonitor.loading (WeatherMonitor.ui st) = true →
   (1 ≤ WeatherMonitor.in_flight st)%nat) ∧
  (WeatherMonitor.refreshing (WeatherMonitor.ui st) = true →
   (1 ≤ WeatherMonitor.in_flight st)%nat) →
  (WeatherMonitor.lifecycle st' = Idle → WeatherMonitor.in_flight st' = 0%nat) ∧
  (WeatherMonitor.lifecycle st' ≠ Idle →
   WeatherMonitor.loading (WeatherMonitor.ui st') = true →
   (1 ≤ WeatherMonitor.in_flight st')%nat) ∧
  (WeatherMonitor.refreshing (WeatherMonitor.ui st') = true →
   (1 ≤ WeatherMonitor.in_flight st')%nat).
Proof.
  induction es as [|e es IH]; simpl; intros st st'; [by intros [= <-]|].
  destruct (WeatherMonitor.step st e) as [st1|] eqn:Hstep; [|done].
  intros Hrun (HI & HL & HR). apply (IH _ _ Hrun). clear IH Hrun.
  revert Hstep. unfold WeatherMonitor.step.
  destruct e, (WeatherMonitor.lifecycle st) eqn:Hl; try done;
    repeat case_match; try done; intros [= <-]; simpl;
    rewrite ?Hl; repeat split; try done; try lia; intros; try lia;
    try (apply HL; done); try (apply HR; done);
    try (by specialize (HI eq_refl)).
Qed.

Lemma AlertsPanel_in_flight_resume st i remote st' :
  AlertsPanel.resume i remote st = Some st' →
  AlertsPanel.loading (AlertsPanel.ui st') = false ∨
  (AlertsPanel.loading (AlertsPanel.ui st')
     = AlertsPanel.loading (AlertsPanel.ui st) ∧
   (AlertsPanel.in_flight st ≤ AlertsPanel.in_flight st')%nat).
Proof.
  unfold AlertsPanel.resume.
  destruct (AlertsPanel.suspended st !! i) as [k|] eqn:Hi; [|done].
  destruct k.
  - intros [= <-]. by left.
  - destruct (outcome (generateTestAlerts remote)); intros [= <-]; right;
      (split; [done|]); unfold AlertsPanel.in_flight; simpl.
    + pose proof (filter_length_insert
        (λ k, AlertsPanel.is_fetch k = true) _ i _
        AlertsPanel.GenerateThenFetch Hi) as H.
      simpl in H. repeat case_decide; try done; lia.
    + pose proof (filter_length_delete
        (λ k, AlertsPanel.is_fetch k = true) _ i _ Hi) as H.
      simpl in H. repeat case_decide; try done; lia.
  - intros [= <-]. by left.
Qed.

Lemma AlertsPanel_run_pending es : ∀ st st',
  AlertsPanel.run es st = Some st' →
  (AlertsPanel.lifecycle st = Idle → AlertsPanel.suspended st = []) ∧
  (AlertsPanel.lifecycle st ≠ Idle →
   AlertsPanel.loading (AlertsPanel.ui st) = true →
   (1 ≤ AlertsPanel.in_flight st)%nat) →
  (AlertsPanel.lifecycle st' = Idle → AlertsPanel.suspended st' = []) ∧
  (AlertsPanel.lifecycle st' ≠ Idle →
   AlertsPanel.loading (AlertsPanel.ui st') = true →
   (1 ≤ AlertsPanel.in_flight st')%nat).
Proof.
  induction es as [|e es IH]; simpl; intros st st'; [by intros [= <-]|].
  destruct (AlertsPanel.step st e) as [st1|] eqn:Hstep; [|done].
  intros Hrun (HI & HL). apply (IH _ _ Hrun). clear IH Hrun.
  revert Hstep. unfold AlertsPanel.step.
  destruct e, (AlertsPanel.lifecycle st) eqn:Hl; try done;
    try (repeat case_match; try done; intros [= <-];
         rewrite ?in_flight_fetchAlerts_call; simpl; rewrite ?Hl;
         split; intros; try done; try lia; by apply HL).
  - intros [= <-]. split; [done|]. intros _ _.
    change (AlertsPanel.in_flight
              (AlertsPanel.with_lifecycle Running (AlertsPanel.fetchAlerts_call st)))
      with (AlertsPanel.in_flight (AlertsPanel.fetchAlerts_call st)).
    rewrite in_flight_fetchAlerts_call. lia.
  - destruct (_ || _); [done|]. intros [= <-]. simpl. rewrite Hl.
    split; [done|]. intros _ Hload.
    unfold AlertsPanel.in_flight. simpl.
    rewrite filter_app, length_app. simpl.
    specialize (HL ltac:(done) Hload). unfold AlertsPanel.in_flight in HL. lia.
  - specialize (HI eq_refl). unfold AlertsPanel.resume. by rewrite HI.
  - intros Hres.
    assert (AlertsPanel.lifecycle st1 = Running) as Hl1.
    { revert Hres. unfold AlertsPanel.resume.
      repeat case_match; try done; intros [= <-]; done. }
    rewrite Hl1. split; [done|]. intros _ Hload.
    destruct (AlertsPanel_in_flight_resume _ _ _ _ Hres) as [Hf|[Heq Hle]];
      [congruence|].
    rewrite Heq in Hload. specialize (HL ltac:(done) Hload). lia.
  - intros Hres.
    assert (AlertsPanel.lifecycle st1 = Stopped) as Hl1.
    { revert Hres. unfold AlertsPanel.resume.
      repeat case_match; try done; intros [= <-]; done. }
    rewrite Hl1. split; [done|]. intros _ Hload.
    destruct (AlertsPanel_in_flight_resume _ _ _ _ Hres) as [Hf|[Heq Hle]];
      [congruence|].
    rewrite Heq in Hload. specialize (HL ltac:(done) Hload). lia.
Qed.

Lemma SystemOverview_run_pending es : ∀ st st',
  SystemOverview.run es st = Some st' →
  (SystemOverview.lifecycle st = Idle → SystemOverview.in_flight st = 0%nat) ∧
  (SystemOverview.lifecycle st ≠ Idle →
   SystemOverview.loading (SystemOverview.ui st) = true →
   (1 ≤ SystemOverview.in_flight st)%nat) →
  (SystemOverview.lifecycle st' = Idle → SystemOverview.in_flight st' = 0%nat) ∧
  (SystemOverview.lifecycle st' ≠ Idle →
   SystemOverview.loading (SystemOverview.ui st') = true →
   (1 ≤ SystemOverview.in_flight st')%nat).
Proof.
  induction es as [|e es IH]; simpl; intros st st'; [by intros [= <-]|].
  destruct (SystemOverview.step st e) as [st1|] eqn:Hstep; [|done].
  intros Hrun (HI & HL). apply (IH _ _ Hrun). clear IH Hrun.
  revert Hstep. unfold SystemOverview.step.
  destruct e, (SystemOverview.lifecycle st) eqn:Hl; try done;
    repeat case_match; try done; intros [= <-]; simpl;
    rewrite ?Hl; repeat split; try done; try lia; intros; try lia;
    try (apply HL; done); try (by specialize (HI eq_refl)).
Qed.

(** X4.  In every state a component can reach from its initial state, a
    flag that makes the user wait is backed by a fetch in flight: while the
    loading placeholder of a mounted weather monitor, alerts panel or system
    overview is shown, and while the weather monitor's Refresh button is
    disabled and spinning, at least one cycle is in flight. *)
Theorem waiting_flags_imply_fetch_in_flight :
  (∀ es st, WeatherMonitor.run es WeatherMonitor.initial = Some st →
     (WeatherMonitor.lifecycle st ≠ Idle →
      WeatherMonitor.loading (WeatherMonitor.ui st) = true →
      (1 ≤ WeatherMonitor.in_flight st)%nat) ∧
     (WeatherMonitor.refreshing (WeatherMonitor.ui st) = true →
      (1 ≤ WeatherMonitor.in_flight st)%nat)) ∧
  (∀ es st, AlertsPanel.run es AlertsPanel.initial = Some st →
     AlertsPanel.lifecycle st ≠ Idle →
     AlertsPanel.loading (AlertsPanel.ui st) = true →
     (1 ≤ AlertsPanel.in_flight st)%nat) ∧
  (∀ es st, SystemOverview.run es SystemOverview.initial = Some st →
     SystemOverview.lifecycle st ≠ Idle →
     SystemOverview.loading (SystemOverview.ui st) = true →
     (1 ≤ SystemOverview.in_flight st)%nat).
Proof.
  split; [|split].
  - intros es st Hrun.
    by apply (WeatherMonitor_run_pending es _ _ Hrun).
  - intros es st Hrun.
    by apply (AlertsPanel_run_pending es _ _ Hrun).
  - intros es st Hrun.
    by apply (SystemOverview_run_pending es _ _ Hrun).
Qed.

(** The converse does not hold: once one of two overlapping cycles is back,
    the Refresh button is enabled again although a cycle is in flight. *)
Lemma refresh_enabled_with_cycle_in_flight :
  (λ st, (WeatherMonitor.refresh_enabled st, WeatherMonitor.in_flight st)) <$>
    WeatherMonitor.run [WeatherMonitor.Mount;
                        WeatherMonitor.Settled Fixtures.healthy;
                        WeatherMonitor.ClickRefresh; WeatherMonitor.Tick;
                        WeatherMonitor.Settled Fixtures.healthy]
                       WeatherMonitor.initial
    = Some (true, 1%nat).
Proof. vm_compute. reflexivity. Qed.

(** ** [AlertsPanel]: generating test alerts *)

Lemma generating_calls_resume st i remote st' :
  AlertsPanel.resume i remote st = Some st' →
  generating_calls st
    = (if AlertsPanel.generating (AlertsPanel.ui st) then 1 else 0)%nat →
  generating_calls st'
    = (if AlertsPanel.generating (AlertsPanel.ui st') then 1 else 0)%nat.
Proof.
  unfold AlertsPanel.resume, generating_calls.
  destruct (AlertsPanel.suspended st !! i) as [k|] eqn:Hi; [|done].
  pose proof (filter_length_delete (λ k, is_generate k = true) _ i _ Hi) as Hd.
  pose proof (filter_length_insert (λ k, is_generate k = true) _ i _
                AlertsPanel.GenerateThenFetch Hi) as Hins.
  destruct k; simpl in Hd, Hins.
  - intros [= <-]. simpl. repeat case_decide; try done. lia.
  - destruct (outcome (generateTestAlerts remote)); intros [= <-]; simpl;
      repeat case_decide; try done;
      destruct (AlertsPanel.generating (AlertsPanel.ui st)); lia.
  - intros [= <-]. simpl. repeat case_decide; try done.
    destruct (AlertsPanel.generating (AlertsPanel.ui st)); lia.
Qed.

Lemma generating_calls_run es : ∀ st st',
  AlertsPanel.run es st = Some st' →
  generating_calls st
    = (if AlertsPanel.generating (AlertsPanel.ui st) then 1 else 0)%nat →
  generating_calls st'
    = (if AlertsPanel.generating (AlertsPanel.ui st') then 1 else 0)%nat.
Proof.
  induction es as [|e es IH]; simpl; intros st st'; [by intros [= <-]|].
  destruct (AlertsPanel.step st e) as [st1|] eqn:Hstep; [|done].
  intros Hrun Hinv. apply (IH _ _ Hrun). clear IH Hrun.
  revert Hstep. unfold AlertsPanel.step.
  destruct e, (AlertsPanel.lifecycle st) eqn:Hl; try done;
    try (intros Hres; by eapply generating_calls_resume).
  - intros [= <-]. unfold generating_calls in *. simpl.
    rewrite filter_app, length_app. simpl. lia.
  - intros [= <-]. unfold generating_calls in *. simpl.
    rewrite filter_app, length_app. simpl. lia.
  - destruct (AlertsPanel.loading _); [done|]. intros [= <-].
    unfold generating_calls in *. simpl.
    rewrite filter_app, length_app. simpl. lia.
  - destruct (AlertsPanel.loading _); [done|].
    destruct (AlertsPanel.generating (AlertsPanel.ui st)) eqn:Hg; [done|].
    intros [= <-]. unfold generating_calls in *. simpl.
    rewrite filter_app, length_app. simpl. lia.
  - by intros [= <-].
Qed.

(** X5.  In every state the alerts panel can reach, the [generating] flag
    is set exactly while a call of [generateTestAlerts] is under way, and
    never more than one such call is under way at a time. *)
Theorem generating_flag_tracks_the_one_call (es : list AlertsPanel.event)
    (st : AlertsPanel.state) :
  AlertsPanel.run es AlertsPanel.initial = Some st →
  generating_calls st
    = (if AlertsPanel.generating (AlertsPanel.ui st) then 1 else 0)%nat.
Proof. intros Hrun. by apply (generating_calls_run es _ _ Hrun). Qed.

Lemma generating_flag_tracks_the_one_call_witness :
  ∃ st, AlertsPanel.run [AlertsPanel.Mount;
                         AlertsPanel.Settled 0 Fixtures.healthy;
                         AlertsPanel.ClickGenerate; AlertsPanel.Tick;
                         AlertsPanel.Settled 0 Fixtures.healthy]
                        AlertsPanel.initial = Some st ∧
        generating_calls st
          = (if AlertsPanel.generating (AlertsPanel.ui st) then 1 else 0)%nat.
Proof.
  eexists. split; [reflexivity|].
  exact (generating_flag_tracks_the_one_call
           [AlertsPanel.Mount; AlertsPanel.Settled 0 Fixtures.healthy;
            AlertsPanel.ClickGenerate; AlertsPanel.Tick;
            AlertsPanel.Settled 0 Fixtures.healthy] _ eq_refl).
Defined.

(** X6.  A click on Generate Test Alerts in a running, loaded panel that is
    not generating: when the generation request fulfils, the alerts are
    fetched anew, and once that fetch is back the panel shows its result
    (or keeps the old alerts if it failed) with [generating] reset and the
    other suspended calls untouched; when the generation request rejects, no
    fetch is made and the panel is exactly as it was before the click. *)
Theorem generateTestAlerts_refreshes_on_success_only
    (st : AlertsPanel.state) (rg rf : backend) :
  AlertsPanel.lifecycle st = Running →
  AlertsPanel.loading (AlertsPanel.ui st) = false →
  AlertsPanel.generating (AlertsPanel.ui st) = false →
  let i := length (AlertsPanel.suspended st) in
  (fulfils (generateTestAlerts rg) →
     AlertsPanel.run [AlertsPanel.ClickGenerate;
                      AlertsPanel.Settled i rg;
                      AlertsPanel.Settled i rf] st
       = Some {| AlertsPanel.ui :=
                   AlertsPanel.setGenerating false
                     (AlertsPanel.fetchAlerts_resume rf (AlertsPanel.ui st));
                 AlertsPanel.lifecycle := Running;
                 AlertsPanel.suspended := AlertsPanel.suspended st |}) ∧
  (rejects (generateTestAlerts rg) →
     AlertsPanel.run [AlertsPanel.ClickGenerate; AlertsPanel.Settled i rg] st
       = Some st).
Proof.
  destruct st as [[al ld gen] lc sus]. simpl. intros -> -> ->.
  unfold fulfils, rejects. split; intros Hg.
  - unfold AlertsPanel.step, AlertsPanel.resume; simpl.
    rewrite list_lookup_middle by done.
    destruct (outcome (generateTestAlerts rg)); [|done]. simpl.
    rewrite insert_app_r_alt, Nat.sub_diag by done. simpl.
    rewrite list_lookup_middle by done.
    by rewrite (delete_middle sus []), app_nil_r.
  - unfold AlertsPanel.step, AlertsPanel.resume; simpl.
    rewrite list_lookup_middle by done.
    destruct (outcome (generateTestAlerts rg)); [done|]. simpl.
    by rewrite (delete_middle sus []), app_nil_r.
Qed.

Lemma generateTestAlerts_witness :
  let st := {| AlertsPanel.ui := {| AlertsPanel.alerts := [];
                                    AlertsPanel.loading := false;
                                    AlertsPanel.generating := false |};
               AlertsPanel.lifecycle := Running;
               AlertsPanel.suspended := [AlertsPanel.FetchAlerts] |} in
  AlertsPanel.run [AlertsPanel.ClickGenerate;
                   AlertsPanel.Settled 1 Fixtures.healthy;
                   AlertsPanel.Settled 1 Fixtures.healthy] st
    = Some {| AlertsPanel.ui := {| AlertsPanel.alerts := [Fixtures.sample_alert];
                                   AlertsPanel.loading := false;
                                   AlertsPanel.generating := false |};
              AlertsPanel.lifecycle := Running;
              AlertsPanel.suspended := [AlertsPanel.FetchAlerts] |} ∧
  AlertsPanel.run [AlertsPanel.ClickGenerate;
                   AlertsPanel.Settled 1 Fixtures.unreachable] st
    = Some st.
Proof.
  intros st. split.
  - exact (proj1 (generateTestAlerts_refreshes_on_success_only
                    st Fixtures.healthy Fixtures.healthy eq_refl eq_refl eq_refl)
                 eq_refl).
  - exact (proj2 (generateTestAlerts_refreshes_on_success_only
                    st Fixtures.unreachable Fixtures.healthy eq_refl eq_refl eq_refl)
                 eq_refl).
Defined.

(** ** [SystemOverview]: failed polls *)

Lemma SystemOverview_step_failed_keeps_data st e st' :
  SystemOverview.step st e = Some st' →
  (∀ remote, e = SystemOverview.Settled remote → rejects (getDashboardData remote)) →
  SystemOverview.dashboardData (SystemOverview.ui st')
    = SystemOverview.dashboardData (SystemOverview.ui st).
Proof.
  unfold SystemOverview.step.
  destruct e, (SystemOverview.lifecycle st); try done;
    repeat case_match; try done; intros [= <-] Hrej; simpl; try done;
    specialize (Hrej _ eq_refl); unfold rejects in Hrej;
    by destruct (outcome (getDashboardData remote)).
Qed.

(** X14.  Through any sequence of events in which every dashboard fetch
    that resumes has failed, the system overview keeps the dashboard data
    it had: ticks, failed fetches and the unmount leave it untouched, so the
    last data received stays on display while the API cannot be reached. *)
Theorem failed_polls_keep_dashboard_data (es : list SystemOverview.event)
    (st st' : SystemOverview.state) :
  SystemOverview.run es st = Some st' →
  (∀ remote, SystemOverview.Settled remote ∈ es →
             rejects (getDashboardData remote)) →
  SystemOverview.dashboardData (SystemOverview.ui st')
    = SystemOverview.dashboardData (SystemOverview.ui st).
Proof.
  revert st. induction es as [|e es IH]; simpl; intros st; [by intros [= <-]|].
  destruct (SystemOverview.step st e) as [st1|] eqn:Hstep; [|done].
  intros Hrun Hrej. rewrite (IH _ Hrun) by (intros; apply Hrej; set_solver).
  apply (SystemOverview_step_failed_keeps_data _ _ _ Hstep).
  intros remote ->. apply Hrej. set_solver.
Qed.

Lemma failed_polls_keep_dashboard_data_witness :
  let st := {| SystemOverview.ui :=
                 {| SystemOverview.dashboardData := Some Fixtures.sample_dashboard;
                    SystemOverview.loading := false |};
               SystemOverview.lifecycle := Running;
               SystemOverview.in_flight := 0 |} in
  ∃ st', SystemOverview.run [SystemOverview.Tick;
                             SystemOverview.Settled Fixtures.unreachable;
                             SystemOverview.Unmount] st = Some st' ∧
         SystemOverview.dashboardData (SystemOverview.ui st')
           = Some Fixtures.sample_dashboard.
Proof.
  intros st. eexists. split; [reflexivity|].
  refine (failed_polls_keep_dashboard_data
            [SystemOverview.Tick; SystemOverview.Settled Fixtures.unreachable;
             SystemOverview.Unmount] st _ eq_refl _).
  intros remote Hin.
  repeat (apply elem_of_cons in Hin as [Heq|Hin]; [by simplify_eq|]).
  by apply not_elem_of_nil in Hin.
Defined.

(** ** Navigation *)

(** X7.  A click on a navigation item makes that item, and no other, the
    highlighted one, and the four items open four different components.  A
    section name that is none of the four items' highlights nothing and
    shows the system overview, which is also what the application starts
    with. *)
Theorem navigation_opens_each_items_own_section :
  (∀ item s, item ∈ App.navItems →
     App.highlighted (App.click item s) = [item]) ∧
  NoDup (map (λ item, App.renderSection (App.click item App.initial))
             App.navItems) ∧
  (∀ s, s ∉ map App.item_id App.navItems →
     App.highlighted s = [] ∧ App.renderSection s = App.SystemOverviewView) ∧
  App.renderSection App.initial = App.SystemOverviewView.
Proof.
  split; [|split; [|split; [|reflexivity]]].
  - intros item s Hin. unfold App.navItems in Hin.
    repeat (apply elem_of_cons in Hin as [->|Hin]; [reflexivity|]).
    by apply not_elem_of_nil in Hin.
  - simpl. repeat (constructor; [set_solver|]). constructor.
  - intros s Hs. simpl in Hs.
    assert (s ≠ "dashboard" ∧ s ≠ "weather" ∧ s ≠ "alerts" ∧ s ≠ "reports")
      as (H1 & H2 & H3 & H4) by set_solver.
    split.
    + unfold App.highlighted, App.navItems.
      rewrite !filter_cons, filter_nil. simpl.
      by rewrite !decide_False by done.
    + unfold App.renderSection.
      by rewrite !(proj2 (String.eqb_neq _ _)) by done.
Qed.

(** ** Severity and level colours *)

Lemma floor_half_ge (z : Z) (s : Q) :
  (z ≤ Qfloor (s / 2))%Z ↔ (inject_Z (2 * z) <= s)%Q.
Proof.
  rewrite inject_Z_mult. split.
  - intros Hz.
    assert (inject_Z z <= inject_Z (Qfloor (s / 2)))%Q as H1
      by by rewrite <- Zle_Qle.
    pose proof (Qfloor_le (s / 2)) as H2.
    change (inject_Z 2) with 2%Q.
    assert (s == 2 * (s / 2))%Q as Hhalf by field. lra.
  - intros Hs. rewrite <- (Qfloor_Z z). apply Qfloor_resp_le.
    change (inject_Z 2) with 2%Q in Hs.
    assert (s == 2 * (s / 2))%Q as Hhalf by field. lra.
Qed.

(** X9.  Of the five stars of a report the first
    [min 5 (max 0 (floor (severity / 2)))] are filled and the others are
    grey: the filled stars come first and their number never leaves the
    range 0 to 5, whatever the severity. *)
Theorem stars_fill_a_prefix (severity : Q) :
  let n := Z.to_nat (Z.max 0 (Z.min 5 (Qfloor (severity / 2)))) in
  Render.stars severity
    = replicate n "text-yellow-400 fill-current"
        ++ replicate (5 - n) "text-gray-500" ∧
  Render.filled (Render.stars severity) = n ∧ (n ≤ 5)%nat.
Proof.
  unfold Render.stars. generalize (Qfloor (severity / 2)). intros f.
  cbn [map].
  assert (f ≤ 0 ∨ f = 1 ∨ f = 2 ∨ f = 3 ∨ f = 4 ∨ 5 ≤ f)%Z
    as [H|[->|[->|[->|[->|H]]]]] by lia;
    try (repeat split; [vm_compute; lia]).
  - rewrite !(proj2 (Z.ltb_ge _ _)) by lia.
    replace (Z.to_nat (0 `max` (5 `min` f))) with 0%nat by lia.
    repeat split. vm_compute. lia.
  - rewrite !(proj2 (Z.ltb_lt _ _)) by lia.
    replace (Z.to_nat (0 `max` (5 `min` f))) with 5%nat by lia.
    repeat split. vm_compute. lia.
Qed.

(** X8.  The colour of the severity badge and the stars of a report agree:
    the badge is red exactly when four or five stars are filled, orange
    exactly when three are, yellow exactly when two are, and green exactly
    when at most one is. *)
Theorem severity_colour_agrees_with_stars (severity : Q) :
  let n := Render.filled (Render.stars severity) in
  (Render.getSeverityColor severity = "text-red-400 bg-red-500/20"
     ↔ (4 ≤ n)%nat) ∧
  (Render.getSeverityColor severity = "text-orange-400 bg-orange-500/20"
     ↔ n = 3%nat) ∧
  (Render.getSeverityColor severity = "text-yellow-400 bg-yellow-500/20"
     ↔ n = 2%nat) ∧
  (Render.getSeverityColor severity = "text-green-400 bg-green-500/20"
     ↔ (n ≤ 1)%nat).
Proof.
  intros n. unfold n.
  rewrite (proj1 (proj2 (stars_fill_a_prefix severity))). clear n.
  pose proof (floor_half_ge 4 severity) as H8.
  pose proof (floor_half_ge 3 severity) as H6.
  pose proof (floor_half_ge 2 severity) as H4.
  change (inject_Z (2 * 4)) with 8%Q in H8.
  change (inject_Z (2 * 3)) with 6%Q in H6.
  change (inject_Z (2 * 2)) with 4%Q in H4.
  rewrite <- Qle_bool_iff in H8, H6, H4.
  unfold Render.getSeverityColor.
  set (f := Qfloor (severity / 2)) in *.
  destruct (Qle_bool 8 severity);
    [|destruct (Qle_bool 6 severity); [|destruct (Qle_bool 4 severity)]].
  - assert (4 ≤ f)%Z by by apply H8.
    repeat split; intros; try done; lia.
  - assert (3 ≤ f)%Z by by apply H6.
    assert (¬ (4 ≤ f)%Z) by (intros ?%H8; done).
    repeat split; intros; try done; lia.
  - assert (2 ≤ f)%Z by by apply H4.
    assert (¬ (3 ≤ f)%Z) by (intros ?%H6; done).
    repeat split; intros; try done; lia.
  - assert (¬ (2 ≤ f)%Z) by (intros ?%H4; done).
    repeat split; intros; try done; lia.
Qed.

(** X10.  The level colours of the weather monitor and of the alerts panel
    are the same function; it gives the four levels of the API four
    different colours, and every other string the colour of [low]. *)
Theorem level_colours_agree_and_distinguish :
  (∀ s, Render.getThreatLevelColor s = Render.getAlertLevelColor s) ∧
  (∀ l1 l2,
     Render.getAlertLevelColor (Render.level_name l1)
       = Render.getAlertLevelColor (Render.level_name l2) → l1 = l2) ∧
  (∀ s, s ≠ "critical" → s ≠ "high" → s ≠ "medium" →
     Render.getAlertLevelColor s
       = Render.getAlertLevelColor (Render.level_name low)).
Proof.
  split; [done|]. split.
  - by intros [] [].
  - intros s H1 H2 H3. unfold Render.getAlertLevelColor at 1.
    by rewrite !(proj2 (String.eqb_neq _ _)) by done.
Qed.

(** ** The other services *)

(** X11.  [threatService.analyzeThreat], [citizenService.submitReport],
    [citizenService.getReports] as the page calls it and
    [dashboardService.getDashboardData] settle within the 10000 ms ceiling
    as well: each fulfils with the data of a response that arrived in time
    with a status axios accepts, and otherwise rejects with the status error
    of the response, with the transport's own error or, past the ceiling,
    with [ECONNABORTED]. *)
Theorem other_services_pass_transport_outcome_through
    (remote : backend) (region : string) (report : ReportDraft) :
  passes_through (analyze_threat remote ("/analyze-threat/" +:+ region))
                 (analyzeThreat remote region) ∧
  passes_through (citizen_report remote "/citizen-report" report)
                 (submitReport remote report) ∧
  passes_through (citizen_reports_list remote "/citizen-reports?limit=20")
                 (getReports remote 20) ∧
  passes_through (dashboard remote "/simulation/dashboard")
                 (getDashboardData remote).
Proof. repeat split; apply service_passes_through. Qed.

(** X12.  The parameters of a knowledge query always carry the query under
    [query]; they carry a disaster type, under [disaster_type], exactly when
    one was given and is not the empty string; and they carry nothing
    else. *)
Theorem queryKnowledge_params_spec (query : string) (disaster_type : option string) :
  Knowledge.params query disaster_type !! "query" = Some query ∧
  (∀ d, Knowledge.params query disaster_type !! "disaster_type" = Some d
        ↔ disaster_type = Some d ∧ d ≠ "") ∧
  (∀ k, k ≠ "query" → k ≠ "disaster_type" →
        Knowledge.params query disaster_type !! k = None).
Proof.
  unfold Knowledge.params, Knowledge.truthy.
  destruct disaster_type as [d0|]; [destruct (String.eqb_spec d0 "") as [->|Hne]|];
    simpl; repeat split; intros; simplify_map_eq; try done; naive_solver.
Qed.

(** ** The report form *)

Lemma FormInput_update_keeps_verified i prev :
  rd_verified (FormInput.update i prev) = rd_verified prev.
Proof. by destruct i. Qed.

Lemma FormInput_foldl inputs : ∀ c,
  rd_verified (ReportSubmissionForm.formData
                 (foldl (λ c i, FormInput.handle i c) c inputs))
    = rd_verified (ReportSubmissionForm.formData c) ∧
  ReportSubmissionForm.submitting (foldl (λ c i, FormInput.handle i c) c inputs)
    = ReportSubmissionForm.submitting c.
Proof.
  induction inputs as [|i inputs IH]; intros c; [done|]. simpl.
  destruct (IH (FormInput.handle i c)) as [-> ->]. simpl.
  by rewrite FormInput_update_keeps_verified.
Qed.

(** X13.  Whatever the user enters in the form, in whatever order, and
    whether or not the browser provides a location, the report that
    [handleSubmit] sends is unverified, and entering data never sets the
    submitting flag. *)
Theorem submitted_report_is_unverified (inputs : list FormInput.input) :
  rd_verified (ReportSubmissionForm.handleSubmit_call (FormInput.after inputs)).2
    = false ∧
  ReportSubmissionForm.submitting (FormInput.after inputs) = false.
Proof.
  unfold FormInput.after, ReportSubmissionForm.handleSubmit_call. simpl.
  by destruct (FormInput_foldl inputs ReportSubmissionForm.initial) as [-> ->].
Qed.
